(** * ifacemaker: the interface extraction engine of [maker/maker.go]

    A shallow embedding of the [Maker] type and of its methods
    [ParseSource], [cleanParams], [printParameters], [makeInterface] and
    [MakeInterface], followed by the properties of the engine.

    The engine works on what the Go standard library hands to it: the syntax
    tree of [go/parser], the text of [go/printer], [strconv.Unquote],
    [filepath.Dir], the working directory of the process and the formatter of
    [golang.org/x/tools/imports].  The syntax tree is modelled by inductive
    types carrying the fields the engine reads; the library functions whose
    results the engine only passes on are the fields of the class [GoLib], so
    that every statement below holds for whatever they compute.  A concrete
    instance for a Unix process is given in [Module Unix] and is used to run
    the engine on concrete files.

    The command of [main.go] is embedded twice: [Module Main] is its run on
    files already read, and [Module Cmd] the whole of [run], with the calls
    to the operating system as the fields of the class [Cmd.FileSystem]. *)

From Stdlib Require Import String Ascii List Bool Arith Lia.
From stdpp Require Import base gmap strings list sorting.
Import ListNotations.

Local Open Scope stdpp_scope.
Local Set Warnings "-register-all,-clear-no-such-hyp".

(** ** Strings of the Go runtime used by the engine *)

(** The line feed, written ["\n"] in Go. *)
Definition LF : string := String (ascii_of_nat 10) "".

(** The double quote character. *)
Definition DQ : string := String (ascii_of_nat 34) "".

(** [strings.HasSuffix(s, suffix)]:
    [len(s) >= len(suffix) && s[len(s)-len(suffix):] == suffix]. *)
Definition HasSuffix (s suffix : string) : bool :=
  (String.length suffix <=? String.length s) &&
  String.eqb
    (substring (String.length s - String.length suffix) (String.length suffix) s)
    suffix.

(** [strings.Split(s, sep)] for a separator of one byte: the pieces of [s]
    between the occurrences of [sep], one more than there are occurrences. *)
Fixpoint Split (s : string) (sep : ascii) : list string :=
  match s with
  | EmptyString => [""]
  | String c s' =>
      if decide (c = sep) then "" :: Split s' sep
      else match Split s' sep with
           | h :: t => String c h :: t
           | [] => [String c ""]
           end
  end.

(** [strings.Join(elems, sep)]. *)
Definition Join (elems : list string) (sep : string) : string :=
  String.concat sep elems.

(** Results of fallible calls: a value, or the message of a Go [error]. *)
Inductive result (A : Type) : Type :=
| ok (a : A)
| failed (msg : string).
Arguments ok {A} a.
Arguments failed {A} msg.

(** [errors.Wrap(err, message)]: its [Error()] is [message + ": " + err.Error()]. *)
Definition Wrap (err message : string) : string := message +:+ ": " +:+ err.

Definition bind {A B} (r : result A) (k : A -> result B) : result B :=
  match r with
  | ok a => k a
  | failed e => failed e
  end.

Definition wrapped {A} (r : result A) (message : string) : result A :=
  match r with
  | ok a => ok a
  | failed e => failed (Wrap e message)
  end.

Notation "x <- r ;; k" := (bind r (fun x => k))
  (at level 100, r at next level, right associativity, only parsing).

(** ** The syntax tree ([go/ast]) *)

(** Expressions in type position.  [Ident] and [StarExpr] are the two shapes
    the engine inspects; the others are only printed.  [OtherExpr] stands for
    every remaining node and carries its source text. *)
Inductive Expr : Type :=
| Ident (Name : string)
| StarExpr (X : Expr)
| SelectorExpr (X : Expr) (Sel : string)
| ArrayType (Len : option Expr) (Elt : Expr)
| Ellipsis (Elt : Expr)
| IndexExpr (X : Expr) (Index : Expr)
| MapType (Key : Expr) (Value : Expr)
| FuncType (Params : list Expr) (Results : list Expr)
| OtherExpr (text : string).

(** [ast.Field]: the names bound (possibly none) and their type. *)
Record Field : Type := mkField {
  fieldNames : list string;
  fieldType : Expr
}.

(** [*ast.FieldList]; [None] is the nil pointer. *)
Definition FieldList : Type := option (list Field).

(** [ast.FuncDecl]; [fdDoc] is [Doc.List] by [Text], [None] when [Doc] is nil. *)
Record FuncDecl : Type := mkFuncDecl {
  fdDoc : option (list string);
  fdRecv : FieldList;
  fdName : string;
  fdParams : FieldList;
  fdResults : FieldList
}.

(** [ast.Decl]: a function declaration, or one of the other two kinds. *)
Inductive Decl : Type :=
| FuncDeclNode (fd : FuncDecl)
| GenDeclNode
| BadDeclNode.

(** [ast.ImportSpec]: [impName] is [Name.String()] ([None] when [Name] is
    nil), [impPathValue] is [Path.Value], the literal as written. *)
Record ImportSpec : Type := mkImportSpec {
  impName : option string;
  impPathValue : string
}.

(** [ast.File]. *)
Record File : Type := mkFile {
  Decls : list Decl;
  Imports : list ImportSpec
}.

(** [ast.FieldList.NumFields]: the number of parameters or fields, an
    anonymous field counting for one. *)
Definition NumFields (f : FieldList) : nat :=
  match f with
  | None => 0
  | Some l =>
      fold_left
        (fun n g =>
           let m := length (fieldNames g) in
           n + (if m =? 0 then 1 else m))
        l 0
  end.

(** ** The library functions the engine calls *)

Class GoLib : Type := {
  (** [ast.Ident.IsExported]: the name starts with an upper-case letter. *)
  IsExported : string -> bool;
  (** [printer.Fprint] into an empty buffer: the text of a node, or an error. *)
  printer_Fprint : Expr -> result string;
  (** [strconv.Unquote]. *)
  strconv_Unquote : string -> result string;
  (** [strconv.Quote], what the verb [%q] of [fmt] prints for a string. *)
  strconv_Quote : string -> string;
  (** [string(os.PathSeparator)]. *)
  os_PathSeparator : string;
  (** [filepath.Dir]. *)
  filepath_Dir : string -> string;
  (** [imports.Process("", code, opts)] with the options of [formatCode]. *)
  imports_Process : string -> result string
}.

(** ** The engine's data ([maker.go], lines 20-38 and 235-243) *)

Record method : Type := mkMethod {
  Code : string;
  Docs : list string
}.

Record importedPkg : Type := mkImportedPkg {
  Alias : string;
  Path : string
}.

(** The [Maker].  A nil map reads as the empty map and [ParseSource]
    allocates each map before it writes to it, so a map field is a [gmap]
    and a set a [gset]; a nil slice is the empty list.  [imports] holds
    pointers, [None] being nil.  [fset] only carries positions and is left
    out. *)
Record Maker : Type := mkMaker {
  StructName : string;
  CopyDocs : bool;
  importsByPath : gmap string importedPkg;
  importsByAlias : gmap string importedPkg;
  imports : list (option importedPkg);
  methods : list method;
  methodNames : gset string;
  funcDecks : list FuncDecl;
  Output : string;
  PkgNameUsedInSourceStruct : string
}.

(** Field updates, one per field that [ParseSource] assigns. *)
Definition set_methodNames (s : gset string) (m : Maker) : Maker :=
  mkMaker (StructName m) (CopyDocs m) (importsByPath m) (importsByAlias m)
    (imports m) (methods m) s (funcDecks m) (Output m)
    (PkgNameUsedInSourceStruct m).

Definition set_funcDecks (l : list FuncDecl) (m : Maker) : Maker :=
  mkMaker (StructName m) (CopyDocs m) (importsByPath m) (importsByAlias m)
    (imports m) (methods m) (methodNames m) l (Output m)
    (PkgNameUsedInSourceStruct m).

Definition set_PkgNameUsedInSourceStruct (a : string) (m : Maker) : Maker :=
  mkMaker (StructName m) (CopyDocs m) (importsByPath m) (importsByAlias m)
    (imports m) (methods m) (methodNames m) (funcDecks m) (Output m) a.

(** [m.importsByPath[path] = imp; m.importsByAlias[alias] = imp;
     m.imports = append(m.imports, imp)]. *)
Definition register (imp : importedPkg) (m : Maker) : Maker :=
  mkMaker (StructName m) (CopyDocs m)
    (<[Path imp := imp]> (importsByPath m))
    (<[Alias imp := imp]> (importsByAlias m))
    (imports m ++ [Some imp]) (methods m) (methodNames m) (funcDecks m)
    (Output m) (PkgNameUsedInSourceStruct m).

(** [m.methodNames[name] = struct{}{}; m.methods = append(m.methods, x)]. *)
Definition addMethod (name : string) (x : method) (m : Maker) : Maker :=
  mkMaker (StructName m) (CopyDocs m) (importsByPath m) (importsByAlias m)
    (imports m) (methods m ++ [x]) ({[name]} ∪ methodNames m) (funcDecks m)
    (Output m) (PkgNameUsedInSourceStruct m).

(** The Maker a caller outside the package can build: the four exported
    fields set, everything else zero. *)
Definition newMaker (structName : string) (copyDocs : bool)
    (output pkgNameUsedInSourceStruct : string) : Maker :=
  mkMaker structName copyDocs ∅ ∅ [] [] ∅ [] output pkgNameUsedInSourceStruct.

(** ** [errorAlias] (lines 42-47) *)

Definition errorAlias (alias : string) : string :=
  if decide (alias = "") then "<none>" else alias.

(** ** [getReceiverTypeName] (lines 258-277)

    The second component is the [*ast.FuncDecl], [None] being nil. *)
Definition getReceiverTypeName (fl : Decl) : string * option FuncDecl :=
  match fl with
  | FuncDeclNode fd =>
      if negb (NumFields (fdRecv fd) =? 1) then ("", None)
      else
        match fdRecv fd with
        | Some (f0 :: _) =>
            let t := fieldType f0 in
            let t := match t with StarExpr x => x | _ => t end in
            match t with
            | Ident name => (name, Some fd)
            | _ => ("", None)
            end
        | _ => ("", None) (* no first field: excluded by [NumFields = 1] *)
        end
  | _ => ("", None)
  end.

Section Engine.

Context `{GoLib}.

(** ** [cleanParams] (lines 184-191) *)

Definition cleanParams (m : Maker) (param : string) : string :=
  match Split param "."%char with
  | [e0; e1] =>
      if decide (e0 = PkgNameUsedInSourceStruct m) then e1 else param
  | _ => param
  end.

(** ** [printParameters] (lines 279-313)

    [printNames] is the inner loop over [field.Names] and [printFields] the
    outer loop over [fl.List]; the text accumulated in [buff] is returned at
    the end, and the first failing call ends the function. *)
Fixpoint printNames (names : list string) : result string :=
  match names with
  | [] => ok ""
  | name :: rest =>
      s <- wrapped (printer_Fprint (Ident name)) "failed printing parameter name" ;;
      r <- printNames rest ;;
      ok (s +:+ (match rest with [] => " " | _ => "," end) +:+ r)
  end.

Fixpoint printFields (m : Maker) (fields : list Field) : result string :=
  match fields with
  | [] => ok ""
  | field :: rest =>
      names <- printNames (fieldNames field) ;;
      t <- wrapped (printer_Fprint (fieldType field)) "failed printing parameter type" ;;
      r <- printFields m rest ;;
      ok (names +:+ cleanParams m t +:+ (match rest with [] => "" | _ => "," end) +:+ r)
  end.

Definition printParameters (m : Maker) (fl : FieldList) : result string :=
  match fl with
  | None => ok ""
  | Some l => printFields m l
  end.

(** ** [ParseSource] (lines 51-182) *)

(** What a call leaves behind: it returns, with the Maker as mutated so far
    and the error ([None] is nil), or it panics on a nil dereference. *)
Inductive Outcome : Type :=
| Return (m : Maker) (err : option string)
| Panic.

(** Lines 78-91, the loop over [a.Decls].  It only appends to [m.funcDecks]
    and sets [hasMethods].  When [getReceiverTypeName] answers [("", nil)]
    and [m.StructName] is empty the comparison of line 79 succeeds and
    [fd.Name] dereferences nil: the result is then [None]. *)
Fixpoint collectDecls (m : Maker) (hasMethods : bool) (decls : list Decl)
    : option (Maker * bool) :=
  match decls with
  | [] => Some (m, hasMethods)
  | d :: rest =>
      let '(a, fd) := getReceiverTypeName d in
      if decide (a = StructName m) then
        match fd with
        | None => None
        | Some fd =>
            if negb (IsExported (fdName fd)) then collectDecls m hasMethods rest
            else if decide (fdName fd ∈ methodNames m) then collectDecls m true rest
            else collectDecls (set_funcDecks (funcDecks m ++ [fd]) m) true rest
        end
      else collectDecls m hasMethods rest
  end.

(** Lines 99-149, the loop over [a.Imports]. *)
Fixpoint harvestImports (targetPath : string) (m : Maker)
    (imps : list ImportSpec) : Maker * option string :=
  match imps with
  | [] => (m, None)
  | imp :: rest =>
      let alias := match impName imp with Some n => n | None => "" end in
      if decide (alias = ".") then harvestImports targetPath m rest
      else
        match strconv_Unquote (impPathValue imp) with
        | failed e =>
            (m, Some (Wrap e ("parsing import `" +:+ impPathValue imp +:+ "` failed")))
        | ok path =>
            if HasSuffix targetPath path then
              harvestImports targetPath
                (if decide (alias = "") then m
                 else set_PkgNameUsedInSourceStruct alias m)
                rest
            else
              match importsByPath m !! path with
              | Some existing =>
                  if decide (Alias existing = alias)
                  then harvestImports targetPath m rest
                  else
                    (m, Some ("Package " +:+ strconv_Quote path +:+
                              " imported multiple times with different aliases: " +:+
                              errorAlias (Alias existing) +:+ ", " +:+ errorAlias alias))
              | None =>
                  if decide (alias = "") then
                    harvestImports targetPath (register (mkImportedPkg alias path) m) rest
                  else
                    match importsByAlias m !! alias with
                    | Some _ =>
                        (m, Some ("Import alias " +:+ alias +:+ " already in use"))
                    | None =>
                        harvestImports targetPath (register (mkImportedPkg alias path) m) rest
                    end
              end
        end
  end.

(** Lines 151-179, the loop over [m.funcDecks]. *)
Fixpoint renderMethods (m : Maker) (fds : list FuncDecl) : Maker * option string :=
  match fds with
  | [] => (m, None)
  | fd :: rest =>
      let methodName := fdName fd in
      if decide (methodName ∈ methodNames m) then renderMethods m rest
      else
        match printParameters m (fdParams fd) with
        | failed e => (m, Some (Wrap e "failed printing parameters"))
        | ok params =>
            match printParameters m (fdResults fd) with
            | failed e => (m, Some (Wrap e "failed printing return values"))
            | ok ret =>
                let code := methodName +:+ "(" +:+ params +:+ ") (" +:+ ret +:+ ")" in
                let docs :=
                  match fdDoc fd with
                  | Some l => if CopyDocs m then l else []
                  | None => []
                  end in
                renderMethods (addMethod methodName (mkMethod code docs) m) rest
            end
        end
  end.

(** Line 57: [filepath.Dir(currentPath + string(os.PathSeparator) + m.Output)]. *)
Definition targetPathOf (currentPath output : string) : string :=
  filepath_Dir (currentPath +:+ os_PathSeparator +:+ output).

(** Lines 68-70: [if m.methods == nil { m.methodNames = make(...) }]. *)
Definition resetNames (m : Maker) : Maker :=
  match methods m with
  | [] => set_methodNames ∅ m
  | _ => m
  end.

(** [ParseSource].  [wd] is what [os.Getwd()] returns and [a] what
    [parser.ParseFile(m.fset, filename, src, parser.ParseComments)] returns
    for the source text of the call. *)
Definition ParseSource (wd : result string) (m : Maker) (a : result File) : Outcome :=
  match wd with
  | failed e => Return m (Some (Wrap e "os.Getwd()"))
  | ok currentPath =>
      let targetPath := targetPathOf currentPath (Output m) in
      let m := resetNames m in
      match a with
      | failed e => Return m (Some (Wrap e "parsing file failed"))
      | ok a =>
          match collectDecls m false (Decls a) with
          | None => Panic
          | Some (m, hasMethods) =>
              if negb hasMethods then Return m None
              else
                match harvestImports targetPath m (Imports a) with
                | (m, Some e) => Return m (Some e)
                | (m, None) =>
                    let '(m, err) := renderMethods m (funcDecks m) in
                    Return m err
                end
          end
      end
  end.

(** ** Rendering (lines 193-256) *)

(** [method.Lines]. *)
Definition method_Lines (x : method) : list string :=
  let lines := [] in
  let lines := lines ++ Docs x in
  let lines := lines ++ [Code x] in
  lines.

(** [importedPkg.Lines]: one line, [fmt.Sprintf("%v %q", i.Alias, i.Path)]. *)
Definition importedPkg_Lines (i : importedPkg) : list string :=
  let lines := [] in
  let lines := lines ++ [Alias i +:+ " " +:+ strconv_Quote (Path i)] in
  lines.

(** [makeInterface]: [output] grows by appends, in the order of the code. *)
Definition makeInterface (m : Maker) (pkgName ifaceName : string) : string :=
  let output :=
    [ "// Code generated by ifacemaker. DO NOT EDIT.";
      "";
      "package " +:+ pkgName;
      "import (" ] in
  let output :=
    fold_left
      (fun output pkgImport =>
         match pkgImport with
         | Some i => output ++ importedPkg_Lines i
         | None => output
         end)
      (imports m) output in
  let output := output ++ [ ")"; "type " +:+ ifaceName +:+ " interface {" ] in
  let output :=
    fold_left (fun output x => output ++ method_Lines x) (methods m) output in
  let output := output ++ [ "}" ] in
  Join output LF.

(** [formatCode] (lines 315-323). *)
Definition formatCode (code : string) : result string := imports_Process code.

(** [MakeInterface]; it has a pointer receiver, so the Maker it leaves
    behind is part of what it returns. *)
Definition MakeInterface (m : Maker) (pkgName ifaceName : string)
    : Maker * result string :=
  let unformatted := makeInterface m pkgName ifaceName in
  match formatCode unformatted with
  | ok b => (m, ok b)
  | failed e =>
      (m, failed (Wrap e
            ("Failed to format generated code. This could be a bug in ifacemaker. The generated code was:" +:+
             LF +:+ unformatted +:+ LF +:+ "Error")))
  end.

End Engine.

(** ** A concrete library: a Unix process

    The functions below follow the documentation of the Go standard library
    on the inputs the examples use: identifiers that start with an ASCII
    letter, import literals and paths without escape sequences, and
    slash-separated paths.  The formatter is left as a parameter; none of the
    examples depends on what it does. *)
Module Unix.

(** [token.IsExported] on a name whose first character is ASCII. *)
Definition upperInitial (name : string) : bool :=
  match name with
  | String c _ => (65 <=? nat_of_ascii c) && (nat_of_ascii c <=? 90)
  | EmptyString => false
  end.

(** The text [go/printer] writes for a type expression. *)
Fixpoint printExpr (e : Expr) : string :=
  match e with
  | Ident name => name
  | StarExpr x => "*" +:+ printExpr x
  | SelectorExpr x sel => printExpr x +:+ "." +:+ sel
  | ArrayType None elt => "[]" +:+ printExpr elt
  | ArrayType (Some len) elt => "[" +:+ printExpr len +:+ "]" +:+ printExpr elt
  | Ellipsis elt => "..." +:+ printExpr elt
  | IndexExpr x index => printExpr x +:+ "[" +:+ printExpr index +:+ "]"
  | MapType key value => "map[" +:+ printExpr key +:+ "]" +:+ printExpr value
  | FuncType params results =>
      "func(" +:+ Join (map printExpr params) ", " +:+ ")" +:+
      match results with
      | [] => ""
      | [r] => " " +:+ printExpr r
      | _ => " (" +:+ Join (map printExpr results) ", " +:+ ")"
      end
  | OtherExpr text => text
  end.

(** Does [s] contain the character [c]? *)
Fixpoint contains (c : ascii) (s : string) : bool :=
  match s with
  | EmptyString => false
  | String d s' => bool_decide (c = d) || contains c s'
  end.

(** [strconv.Unquote] on an interpreted string literal without escape
    sequences; any other text is refused. *)
Definition Unquote (lit : string) : result string :=
  match lit with
  | String q rest =>
      let n := String.length rest in
      let body := substring 0 (n - 1) rest in
      if bool_decide (q = ascii_of_nat 34) && (1 <=? n) &&
         String.eqb (substring (n - 1) 1 rest) DQ &&
         negb (contains (ascii_of_nat 34) body) &&
         negb (contains (ascii_of_nat 92) body) &&
         negb (contains (ascii_of_nat 10) body)
      then ok body
      else failed "invalid syntax"
  | EmptyString => failed "invalid syntax"
  end.

(** [strconv.Quote] on printable ASCII text without quote or backslash. *)
Definition Quote (s : string) : string := DQ +:+ s +:+ DQ.

(** The elements of a cleaned path, most recent first in [stack]: empty and
    [.] elements are dropped, [..] removes the element before it, stays when
    there is none to remove and the path is relative, and is dropped at the
    root. *)
Fixpoint cleanElems (rooted : bool) (elems stack : list string) : list string :=
  match elems with
  | [] => rev stack
  | e :: rest =>
      if bool_decide (e = "") || bool_decide (e = ".") then cleanElems rooted rest stack
      else if bool_decide (e = "..") then
        match stack with
        | top :: below =>
            if bool_decide (top = "..") then cleanElems rooted rest (e :: stack)
            else cleanElems rooted rest below
        | [] =>
            if rooted then cleanElems rooted rest []
            else cleanElems rooted rest [e]
        end
      else cleanElems rooted rest (e :: stack)
  end.

(** [filepath.Clean]. *)
Definition Clean (path : string) : string :=
  let rooted := match path with String c _ => bool_decide (c = "/"%char) | _ => false end in
  let out := Join (cleanElems rooted (Split path "/"%char) []) "/" in
  if rooted then "/" +:+ out
  else if bool_decide (out = "") then "." else out.

(** [filepath.Dir]: [Clean] of the path up to and including its last
    separator. *)
Definition Dir (path : string) : string :=
  Clean (match removelast (Split path "/"%char) with
         | [] => ""
         | l => Join l "/" +:+ "/"
         end).

Definition lib (format : string -> result string) : GoLib :=
  {| IsExported := upperInitial;
     printer_Fprint := fun e => ok (printExpr e);
     strconv_Unquote := Unquote;
     strconv_Quote := Quote;
     os_PathSeparator := "/";
     filepath_Dir := Dir;
     imports_Process := format |}.

End Unix.

(** ** The command ([main.go], [run])

    [run] builds the Maker from the arguments, hands every file to
    [ParseSource] in order, stops at the first error ([log.Fatal]) and then
    renders once.  Reading the files and writing the result are left to the
    caller: the files come as their names and contents, and the result is the
    text that would be written. *)
Module Main.

Record cmdlineArgs : Type := mkArgs {
  StructType : string;
  IfaceName : string;
  PkgName : string;
  CopyDocs : bool;
  Output : string
}.

(** How the process ends. *)
Inductive Exit : Type :=
| Written (result : string)
| Fatal (msg : string)
| Crashed.

Section Run.

Context `{GoLib}.

(** The loop [for _, f := range allFiles], on the syntax trees. *)
Fixpoint parseAll (wd : result string) (m : Maker) (parsed : list (result File))
    : Outcome :=
  match parsed with
  | [] => Return m None
  | a :: rest =>
      match ParseSource wd m a with
      | Return m' None => parseAll wd m' rest
      | o => o
      end
  end.

Definition runParsed (wd : result string) (args : cmdlineArgs)
    (parsed : list (result File)) : Exit :=
  let m := newMaker (StructType args) (CopyDocs args) (Output args) (PkgName args) in
  match parseAll wd m parsed with
  | Panic => Crashed
  | Return _ (Some e) => Fatal e
  | Return m None =>
      match snd (MakeInterface m (PkgName args) (IfaceName args)) with
      | ok b => Written b
      | failed e => Fatal e
      end
  end.

(** [run]; [parse filename src] is [parser.ParseFile] on a fresh file set. *)
Definition run (parse : string -> string -> result File) (wd : result string)
    (args : cmdlineArgs) (files : list (string * string)) : Exit :=
  runParsed wd args (map (fun f => parse (fst f) (snd f)) files).

End Run.

End Main.

(** ** The command with its file system ([main.go], [run], in full)

    [run] first expands its file arguments: a directory stands for its
    entries that are not directories and whose name ends in [.go], in the
    order of [sort.Strings]; any other argument stands for itself.  It then
    reads and parses the files one by one, renders, and prints or writes the
    result.  Every [log.Fatal] ends the process with its message. *)
Module Cmd.

(** [os.FileInfo], as far as [run] reads it. *)
Record FileInfo : Type := mkFileInfo {
  Name : string;
  IsDir : bool
}.

(** The calls [run] makes to the operating system, by path: [os.Stat],
    [os.Open], [Readdir(-1)] and [Close] on the directory opened,
    [ioutil.ReadFile], [ioutil.WriteFile] with its content, and the two
    functions of [path/filepath].  An error is its message; [None] is nil. *)
Class FileSystem : Type := {
  os_Stat : string -> result FileInfo;
  os_Open : string -> option string;
  Readdir : string -> result (list FileInfo);
  Close : string -> option string;
  ioutil_ReadFile : string -> result string;
  ioutil_WriteFile : string -> string -> option string;
  filepath_Join : string -> string -> string;
  filepath_Base : string -> string
}.

(** [sort.Strings]: increasing order of the byte strings. *)
Definition sort_Strings (x : list string) : list string := merge_sort String.le x.

(** How the process ends: the text printed on standard output, the file
    written, the message of [log.Fatal], or a panic. *)
Inductive Exit : Type :=
| Printed (text : string)
| Saved (path content : string)
| Fatal (msg : string)
| Crashed.

Section Run.

Context `{GoLib} `{FileSystem}.

(** The loop over [dirFiles]. *)
Definition goFiles (f : string) (dirFiles : list FileInfo) : list string :=
  fold_left
    (fun dirFileNames fi =>
       if negb (IsDir fi) && HasSuffix (Name fi) ".go"
       then dirFileNames ++ [filepath_Join f (Name fi)]
       else dirFileNames)
    dirFiles [].

(** The branch [if fi.IsDir()] of the first loop. *)
Definition listDir (f : string) : result (list string) :=
  match os_Open f with
  | Some e => failed e
  | None =>
      match Readdir f with
      | failed e => failed e
      | ok dirFiles =>
          match Close f with
          | Some e => failed ("dir.Close(): " +:+ e)
          | None => ok (sort_Strings (goFiles f dirFiles))
          end
      end
  end.

(** The first loop, [for _, f := range args.Files]. *)
Fixpoint expand (allFiles : list string) (files : list string) : result (list string) :=
  match files with
  | [] => ok allFiles
  | f :: rest =>
      match os_Stat f with
      | failed e => failed e
      | ok fi =>
          if IsDir fi then
            match listDir f with
            | failed e => failed e
            | ok dirFileNames => expand (allFiles ++ dirFileNames) rest
            end
          else expand (allFiles ++ [f]) rest
      end
  end.

(** The second loop, [for _, f := range allFiles]; an error is fatal. *)
Fixpoint parseFiles (parse : string -> string -> result File) (wd : result string)
    (m : Maker) (allFiles : list string) : Outcome :=
  match allFiles with
  | [] => Return m None
  | f :: rest =>
      match ioutil_ReadFile f with
      | failed e => Return m (Some e)
      | ok src =>
          match ParseSource wd m (parse (filepath_Base f) src) with
          | Return m' None => parseFiles parse wd m' rest
          | o => o
          end
      end
  end.

(** [run]; [files] is [args.Files]. *)
Definition run (parse : string -> string -> result File) (wd : result string)
    (args : Main.cmdlineArgs) (files : list string) : Exit :=
  let m := newMaker (Main.StructType args) (Main.CopyDocs args) (Main.Output args)
             (Main.PkgName args) in
  match expand [] files with
  | failed e => Fatal e
  | ok allFiles =>
      match parseFiles parse wd m allFiles with
      | Panic => Crashed
      | Return _ (Some e) => Fatal e
      | Return m None =>
          match snd (MakeInterface m (Main.PkgName args) (Main.IfaceName args)) with
          | failed e => Fatal e
          | ok result =>
              if decide (Main.Output args = "") then Printed (result +:+ LF)
              else
                match ioutil_WriteFile (Main.Output args) result with
                | Some e =>
                    Fatal ("ioutil.WriteFile(args.Output, result, 0644): " +:+ e)
                | None => Saved (Main.Output args) result
                end
          end
      end
  end.

End Run.

End Cmd.

(** ** Sample files *)
Module Sample.

(** [func (f *Foo) name() result], without a doc comment. *)
Definition getter (name : string) (result : Expr) : Decl :=
  FuncDeclNode
    (mkFuncDecl None (Some [mkField ["f"] (StarExpr (Ident "Foo"))]) name
       (Some []) (Some [mkField [] result])).

(** [import alias "path"], or [import "path"] when [alias] is [None]. *)
Definition import (alias : option string) (path : string) : ImportSpec :=
  mkImportSpec alias (DQ +:+ path +:+ DQ).

(** [import w "example.com/widgets"; func (f *Foo) Get() w.Widget]. *)
Definition fileA : File :=
  mkFile
    [GenDeclNode; getter "Get" (SelectorExpr (Ident "w") "Widget")]
    [import (Some "w") "example.com/widgets"].

(** [import v "example.com/widgets"; func (f *Foo) Get() v.Widget]:
    the method of [fileA] again, the same path under another alias. *)
Definition fileB : File :=
  mkFile
    [GenDeclNode; getter "Get" (SelectorExpr (Ident "v") "Widget")]
    [import (Some "v") "example.com/widgets"].

(** [import v "example.com/widgets"; func (f *Foo) Put() v.Widget]. *)
Definition fileC : File :=
  mkFile
    [GenDeclNode; getter "Put" (SelectorExpr (Ident "v") "Widget")]
    [import (Some "v") "example.com/widgets"].

Definition foo : Maker := newMaker "Foo" true "" "".

End Sample.

(** * Notions used in the statements *)

(** Does [s] contain the character [c]? *)
Fixpoint occurs (c : ascii) (s : string) : bool :=
  match s with
  | EmptyString => false
  | String d s' => if decide (d = c) then true else occurs c s'
  end.

(** The spelling of a Go identifier in ASCII: a letter or underscore, then
    letters, digits and underscores. *)
Definition isLetter (c : ascii) : bool :=
  let n := nat_of_ascii c in
  ((65 <=? n) && (n <=? 90)) || ((97 <=? n) && (n <=? 122)) || (n =? 95).

Definition isDigit (c : ascii) : bool :=
  let n := nat_of_ascii c in (48 <=? n) && (n <=? 57).

Fixpoint allChars (p : ascii -> bool) (s : string) : bool :=
  match s with
  | EmptyString => true
  | String c s' => p c && allChars p s'
  end.

Definition isIdentifier (s : string) : bool :=
  match s with
  | EmptyString => false
  | String c s' => isLetter c && allChars (fun d => isLetter d || isDigit d) s'
  end.

(** The receiver's type name in the words of the specification: exactly one
    receiver binding, whose type is an identifier once at most one pointer
    star is removed. *)
Definition receiverType (fd : FuncDecl) : option string :=
  match fdRecv fd with
  | Some [f] =>
      match fieldNames f with
      | [] | [_] =>
          match fieldType f with
          | Ident name => Some name
          | StarExpr (Ident name) => Some name
          | _ => None
          end
      | _ => None
      end
  | _ => None
  end.

(** First occurrence wins: the declarations of [l] whose name is neither in
    [seen] nor carried by an earlier declaration of [l]. *)
Fixpoint firstWins (seen : gset string) (l : list FuncDecl) : list FuncDecl :=
  match l with
  | [] => []
  | fd :: rest =>
      if decide (fdName fd ∈ seen) then firstWins seen rest
      else fd :: firstWins ({[fdName fd]} ∪ seen) rest
  end.

(** The names of the declarations of [l]. *)
Definition names (l : list FuncDecl) : gset string := list_to_set (map fdName l).

(** The Maker with its method list and method names replaced. *)
Definition withMethods (xs : list method) (ns : gset string) (m : Maker) : Maker :=
  mkMaker (StructName m) (CopyDocs m) (importsByPath m) (importsByAlias m)
    (imports m) xs ns (funcDecks m) (Output m) (PkgNameUsedInSourceStruct m).

(** The alias of an import specification, empty when none is written. *)
Definition aliasOf (imp : ImportSpec) : string :=
  match impName imp with Some n => n | None => "" end.

Section Notions.

Context `{GoLib}.

(** The line of an import: the alias, possibly empty, a space, the quoted
    path. *)
Definition importLine (i : importedPkg) : string :=
  Alias i +:+ " " +:+ strconv_Quote (Path i).

(** The lines of a method: its doc lines, then its signature. *)
Definition methodLines (x : method) : list string := Docs x ++ [Code x].

(** The declaration the engine takes from [d], in the words of the
    specification: a function declaration whose receiver type is the target
    type and whose name is exported. *)
Definition collectable (target : string) (d : Decl) : option FuncDecl :=
  match d with
  | FuncDeclNode fd =>
      match receiverType fd with
      | Some name =>
          if decide (name = target) then
            if IsExported (fdName fd) then Some fd else None
          else None
      | None => None
      end
  | _ => None
  end.

(** The declarations on which line 80 dereferences nil: those without a
    receiver type name, when the target name is empty. *)
Definition nilDeref (target : string) (d : Decl) : bool :=
  bool_decide (target = "") &&
  match d with
  | FuncDeclNode fd => bool_decide (receiverType fd = None)
  | _ => true
  end.

(** The declarations of a file that are still to be rendered: collectable,
    and not yet among the method names. *)
Definition pending (m : Maker) (decls : list Decl) : list FuncDecl :=
  filter (fun fd => fdName fd ∉ methodNames m) (omap (collectable (StructName m)) decls).

(** The record lines 158-178 build for one declaration. *)
Definition renderMethod (m : Maker) (fd : FuncDecl) : result method :=
  match printParameters m (fdParams fd) with
  | failed e => failed (Wrap e "failed printing parameters")
  | ok params =>
      match printParameters m (fdResults fd) with
      | failed e => failed (Wrap e "failed printing return values")
      | ok ret =>
          ok (mkMethod
                (fdName fd +:+ "(" +:+ params +:+ ") (" +:+ ret +:+ ")")
                (match fdDoc fd with
                 | Some l => if CopyDocs m then l else []
                 | None => []
                 end))
      end
  end.

(** [x] is the record of [fd]: its name and signature as printed under some
    source package alias, and its doc lines when [copyDocs] is set. *)
Definition recordOf (copyDocs : bool) (fd : FuncDecl) (x : method) : Prop :=
  exists m0, CopyDocs m0 = copyDocs /\ renderMethod m0 fd = ok x.

(** Does the file declare a collectable method, pending or not? *)
Definition hasCollectable (target : string) (f : File) : bool :=
  existsb (fun d => bool_decide (is_Some (collectable target d))) (Decls f).

(** The Maker when the loop over the imports starts. *)
Definition collected (m : Maker) (f : File) : Maker :=
  set_funcDecks (funcDecks (resetNames m) ++ pending (resetNames m) (Decls f)) (resetNames m).

(** An import specification that names the target location under an
    explicit alias. *)
Definition aliasedSelf (targetPath : string) (imp : ImportSpec) : bool :=
  negb (bool_decide (aliasOf imp = ".")) && negb (bool_decide (aliasOf imp = "")) &&
  match strconv_Unquote (impPathValue imp) with
  | ok path => HasSuffix targetPath path
  | failed _ => false
  end.

(** The alias of the last such specification, if any. *)
Fixpoint selfAlias (targetPath : string) (imps : list ImportSpec) : option string :=
  match imps with
  | [] => None
  | imp :: rest =>
      match selfAlias targetPath rest with
      | Some a => Some a
      | None => if aliasedSelf targetPath imp then Some (aliasOf imp) else None
      end
  end.

(** The source package alias after a loop that started with [a]. *)
Definition aliasAfter (targetPath : string) (imps : list ImportSpec) (a : string) : string :=
  match selfAlias targetPath imps with Some b => b | None => a end.

(** What the loop has to say about one specification once it is through:
    a dot import is ignored; a path that names the target location is not
    looked up; any other path is registered under the alias written. *)
Definition sighted (targetPath : string) (m : Maker) (imp : ImportSpec) : Prop :=
  aliasOf imp = "." \/
  exists path, strconv_Unquote (impPathValue imp) = ok path /\
    (HasSuffix targetPath path = true \/
     HasSuffix targetPath path = false /\
     exists e, importsByPath m !! path = Some e /\ Alias e = aliasOf imp).

(** The Maker has seen the collectable declarations [seen], in this order:
    its method names are theirs, its methods are the records of their first
    occurrences, and every declaration it still holds has been rendered. *)
Definition Settled (m : Maker) (seen : list FuncDecl) : Prop :=
  methodNames m = names seen /\
  Forall2 (recordOf (CopyDocs m)) (firstWins ∅ seen) (methods m) /\
  Forall (fun fd => fdName fd ∈ methodNames m) (funcDecks m).


End Notions.

(** ** Invariants of the Maker and closed forms *)

(** The entries of the import list. *)
Definition entries (m : Maker) : list importedPkg := omap id (imports m).

(** The import registry is consistent: the list holds no nil and no entry
    twice, the path index holds exactly the entries of the list, each under
    its own path, the alias index holds entries of the list, each under its
    own alias, and every entry with an alias is found under it. *)
Definition Consistent (m : Maker) : Prop :=
  NoDup (imports m) /\
  (forall i, i ∈ imports m -> exists e, i = Some e /\ importsByPath m !! Path e = Some e) /\
  (forall p e, importsByPath m !! p = Some e -> Path e = p /\ Some e ∈ imports m) /\
  (forall a e, importsByAlias m !! a = Some e -> Alias e = a /\ Some e ∈ imports m) /\
  (forall e, Some e ∈ imports m -> Alias e <> "" -> importsByAlias m !! Alias e = Some e).

(** No entry of the registry carries an alias. *)
Definition Unaliased (m : Maker) : Prop :=
  forall p e, importsByPath m !! p = Some e -> Alias e = "".

(** The nodes [printParameters] hands to [printer.Fprint], in the order of
    the calls: for each field its names, then its type. *)
Inductive role : Type :=
| AsName
| AsType.

Definition nodes (l : list Field) : list (role * Expr) :=
  flat_map
    (fun f => map (fun n => (AsName, Ident n)) (fieldNames f) ++ [(AsType, fieldType f)])
    l.

(** The message [printParameters] wraps a printing error in. *)
Definition roleMessage (r : role) : string :=
  match r with
  | AsName => "failed printing parameter name"
  | AsType => "failed printing parameter type"
  end.

(** The collectable declarations of the files of a run, in order; a file
    that did not parse has none. *)
Definition declared `{GoLib} (target : string) (parsed : list (result File))
    : list FuncDecl :=
  flat_map
    (fun a => match a with
              | ok f => omap (collectable target) (Decls f)
              | failed _ => []
              end)
    parsed.

Section Invariants.

Context `{GoLib}.

(** The error of the first node that does not print, if any, wrapped as
    [printParameters] wraps it. *)
Fixpoint firstFailure (ns : list (role * Expr)) : option string :=
  match ns with
  | [] => None
  | (r, n) :: rest =>
      match printer_Fprint n with
      | failed e => Some (Wrap e (roleMessage r))
      | ok _ => firstFailure rest
      end
  end.

(** The text of one field when its nodes print as [txt] says: the names
    separated by commas and followed by a space, then the type after
    [cleanParams]. *)
Definition fieldText (m : Maker) (txt : Expr -> string) (f : Field) : string :=
  match fieldNames f with
  | [] => ""
  | ns => Join (map (fun n => txt (Ident n)) ns) "," +:+ " "
  end +:+ cleanParams m (txt (fieldType f)).

(** The methods of [m] are the records of the declarations [fds], one each
    and in this order; these carry different names, which are the method
    names of [m], and are all held in [m.funcDecks]. *)
Definition Rendered (m : Maker) (fds : list FuncDecl) : Prop :=
  NoDup (map fdName fds) /\
  methodNames m = names fds /\
  Forall2 (recordOf (CopyDocs m)) fds (methods m) /\
  Forall (fun fd => fd ∈ funcDecks m) fds.

End Invariants.

(** ** Sample runs *)
Module Examples.

#[local] Instance unix : GoLib := Unix.lib ok.

(** [fileA] processed by a new Maker in [/tmp]. *)
Definition afterA : Maker :=
  match ParseSource (ok "/tmp") Sample.foo (ok Sample.fileA) with
  | Return m _ => m
  | Panic => Sample.foo
  end.

(** [func (recv) name(id int) error], with one doc line. *)
Definition method (recv : list Field) (name : string) : Decl :=
  FuncDeclNode (mkFuncDecl (Some ["// " +:+ name +:+ " is documented."]) (Some recv) name
                  (Some [mkField ["id"] (Ident "int")]) (Some [mkField [] (Ident "error")])).

(** Declarations of every receiver shape:
    [func (f *Foo) Get(id int) error], [func (f Foo) Put(id int) error],
    [func (f *Foo) hidden(id int) error], [func Plain()],
    [func (a, b Foo) Two(id int) error], [func (f **Foo) Deep(id int) error],
    [func (f pkg.Foo) Far(id int) error], [func (b *Bar) Other(id int) error],
    and a declaration that is not a function. *)
Definition shapes : File :=
  mkFile
    [ method [mkField ["f"] (StarExpr (Ident "Foo"))] "Get";
      method [mkField ["f"] (Ident "Foo")] "Put";
      method [mkField ["f"] (StarExpr (Ident "Foo"))] "hidden";
      FuncDeclNode (mkFuncDecl None None "Plain" (Some []) None);
      method [mkField ["a"; "b"] (Ident "Foo")] "Two";
      method [mkField ["f"] (StarExpr (StarExpr (Ident "Foo")))] "Deep";
      method [mkField ["f"] (SelectorExpr (Ident "pkg") "Foo")] "Far";
      method [mkField ["b"] (StarExpr (Ident "Bar"))] "Other";
      GenDeclNode ]
    [].

(** [func (f *Foo) Get() int; func (f *Foo) Put() string]: [Get] again,
    with another signature, and a new method. *)
Definition fileD : File :=
  mkFile [Sample.getter "Get" (Ident "int"); Sample.getter "Put" (Ident "string")] [].

(** A library whose printer refuses the nodes that have no shape of their
    own in [Expr]. *)
Definition strict : GoLib :=
  {| IsExported := Unix.upperInitial;
     printer_Fprint :=
       fun e => match e with
                | OtherExpr _ => failed "go/printer: unsupported node type"
                | _ => ok (Unix.printExpr e)
                end;
     strconv_Unquote := Unix.Unquote;
     strconv_Quote := Unix.Quote;
     os_PathSeparator := "/";
     filepath_Dir := Unix.Dir;
     imports_Process := ok |}.

(** [import "fmt"; func (f *Foo) Name() fmt.Stringer]. *)
Definition fileE : File :=
  mkFile [Sample.getter "Name" (SelectorExpr (Ident "fmt") "Stringer")]
         [Sample.import None "fmt"].

(** [import . "example.com/dot"; import "io"; import "os";
    func (f *Foo) Open() io.Reader]. *)
Definition fileF : File :=
  mkFile [Sample.getter "Open" (SelectorExpr (Ident "io") "Reader")]
         [Sample.import (Some ".") "example.com/dot"; Sample.import None "io";
          Sample.import None "os"].

(** [import w "example.com/gadgets"; func (f *Foo) Put() int]: the alias of
    [Sample.fileA] for another path. *)
Definition fileG : File :=
  mkFile [Sample.getter "Put" (Ident "int")]
         [Sample.import (Some "w") "example.com/gadgets"].

(** A file system: the directory [pkg] lists [b.go], [a.go], [notes.txt]
    and a subdirectory [sub.go], in this order, and the file [main.txt] lies
    beside it.  Paths are joined by a slash, and the base of a path is what
    follows its last slash. *)
Definition disk : Cmd.FileSystem :=
  {| Cmd.os_Stat :=
       fun p =>
         if decide (p = "pkg") then ok (Cmd.mkFileInfo "pkg" true)
         else if decide (p ∈ ["main.txt"; "pkg/a.go"; "pkg/b.go"])
              then ok (Cmd.mkFileInfo (List.last (Split p "/"%char) p) false)
              else failed ("stat " +:+ p +:+ ": no such file or directory");
     Cmd.os_Open := fun _ => None;
     Cmd.Readdir :=
       fun p =>
         if decide (p = "pkg")
         then ok [ Cmd.mkFileInfo "b.go" false; Cmd.mkFileInfo "a.go" false;
                   Cmd.mkFileInfo "notes.txt" false; Cmd.mkFileInfo "sub.go" true ]
         else failed ("readdirent " +:+ p +:+ ": not a directory");
     Cmd.Close := fun _ => None;
     Cmd.ioutil_ReadFile :=
       fun p =>
         if decide (p ∈ ["main.txt"; "pkg/a.go"; "pkg/b.go"]) then ok ("// " +:+ p)
         else failed ("open " +:+ p +:+ ": no such file or directory");
     Cmd.ioutil_WriteFile := fun _ _ => None;
     Cmd.filepath_Join := fun dir name => dir +:+ "/" +:+ name;
     Cmd.filepath_Base := fun p => List.last (Split p "/"%char) p |}.

(** A parser that knows two files by name: [a.go] is [Sample.fileA] and
    [b.go] is [fileD]. *)
Definition parse (filename src : string) : result File :=
  if decide (filename = "a.go") then ok Sample.fileA
  else if decide (filename = "b.go") then ok fileD
  else failed (filename +:+ ":1:1: expected 'package', found 'EOF'").

End Examples.

(** * Properties *)

(** ** [Split] and [Join] *)

Lemma append_nil s : "" +:+ s = s.
Proof. reflexivity. Qed.

Lemma append_cons d a b : String d a +:+ b = String d (a +:+ b).
Proof. reflexivity. Qed.

Lemma append_length a b : String.length (a +:+ b) = String.length a + String.length b.
Proof.
  induction a as [|d a IH]; [done|]. rewrite append_cons. simpl. by rewrite IH.
Qed.

Lemma append_assoc a b c : (a +:+ b) +:+ c = a +:+ (b +:+ c).
Proof. induction a as [|d a IH]; [done|]. rewrite !append_cons. by rewrite IH. Qed.

Lemma Split_nonempty s c : Split s c <> [].
Proof.
  destruct s as [|d s]; simpl; [done|].
  destruct (decide (d = c)); [done|]. by destruct (Split s c).
Qed.

Lemma Split_free s c : occurs c s = false -> Split s c = [s].
Proof.
  induction s as [|d s IH]; simpl; [done|].
  destruct (decide (d = c)); [done|]. intros Hs. by rewrite IH.
Qed.

Lemma Split_at a b c :
  occurs c a = false -> Split (a +:+ String c b) c = a :: Split b c.
Proof.
  induction a as [|d a IH]; rewrite ?append_nil, ?append_cons; simpl.
  - intros _. by destruct (decide (c = c)).
  - destruct (decide (d = c)); [done|]. intros Ha. by rewrite IH.
Qed.

Lemma Split_pieces s c : Forall (fun e => occurs c e = false) (Split s c).
Proof.
  induction s as [|d s IH]; simpl; [by repeat constructor|].
  destruct (decide (d = c)) as [->|Hd]; [by constructor|].
  destruct (Split s c) as [|h t]; [by repeat constructor; simpl; destruct (decide (d = c))|].
  inversion IH; subst. constructor; [|done].
  simpl. by destruct (decide (d = c)).
Qed.

Lemma Join_Split s c : Join (Split s c) (String c "") = s.
Proof.
  unfold Join. induction s as [|d s IH]; simpl; [done|].
  destruct (decide (d = c)) as [->|Hd].
  - pose proof (Split_nonempty s c) as Hne.
    destruct (Split s c) as [|h t]; [done|]. simpl in *. by rewrite IH.
  - pose proof (Split_nonempty s c) as Hne.
    destruct (Split s c) as [|h t]; [done|].
    destruct t as [|h' t]; simpl in *; by rewrite <- IH.
Qed.

(** A text that splits in two at [c] is the first piece, [c], the second
    piece, and neither piece contains [c]. *)
Lemma Split_two s c e0 e1 :
  Split s c = [e0; e1] ->
  s = e0 +:+ String c e1 /\ occurs c e0 = false /\ occurs c e1 = false.
Proof.
  intros Hs. pose proof (Join_Split s c) as HJ. pose proof (Split_pieces s c) as HP.
  rewrite Hs in HJ, HP. apply Forall_cons in HP as [H0 HP].
  apply Forall_cons in HP as [H1 _]. by rewrite <- HJ.
Qed.

Lemma occurs_append c a b : occurs c (a +:+ b) = occurs c a || occurs c b.
Proof.
  induction a as [|d a IH]; rewrite ?append_cons; simpl; [done|].
  by destruct (decide (d = c)).
Qed.

(** A text has at most one decomposition around its first [c]. *)
Lemma first_split_unique c a x b y :
  occurs c a = false -> occurs c b = false ->
  a +:+ String c x = b +:+ String c y -> a = b /\ x = y.
Proof.
  revert b. induction a as [|d a IH]; intros [|e b];
    rewrite ?append_nil, ?append_cons; simpl.
  - intros _ _ Heq. by injection Heq as ->.
  - intros _. destruct (decide (e = c)) as [->|He]; [done|].
    intros _ Heq. by injection Heq as <-.
  - destruct (decide (d = c)) as [->|Hd]; [done|].
    intros _ _ Heq. by injection Heq as ->.
  - destruct (decide (d = c)); [done|]. destruct (decide (e = c)); [done|].
    intros Ha Hb Heq. injection Heq as -> Heq.
    by destruct (IH b Ha Hb Heq) as [-> ->].
Qed.

(** When the first [c] of a text lies in [l] and is followed by another
    [c], the text is not of the form [b], [c], [r] with [b] and [r] free of
    [c]. *)
Lemma second_split c l x b r :
  occurs c r = false -> occurs c l = true -> occurs c b = false ->
  l +:+ String c x <> b +:+ String c r.
Proof.
  intros Hr. revert b. induction l as [|d l IH]; rewrite ?append_cons; simpl; [done|].
  destruct (decide (d = c)) as [->|Hd].
  - intros [|e b] _; rewrite ?append_nil, ?append_cons; simpl.
    + intros _ Heq. injection Heq as Heq. subst r.
      rewrite occurs_append in Hr. simpl in Hr.
      destruct (decide (c = c)); [|done]. by rewrite orb_true_r in Hr.
    + destruct (decide (e = c)) as [->|He]; [done|]. intros _ Heq. congruence.
  - intros [|e b] Hl; rewrite ?append_nil, ?append_cons; simpl.
    + intros _ Heq. congruence.
    + destruct (decide (e = c)); [done|].
      intros Hb Heq. injection Heq as -> Heq. by apply (IH b Hl Hb).
Qed.

(** ** Qualifier stripping *)

Lemma cleanParams_strip m rest :
  occurs "." (PkgNameUsedInSourceStruct m) = false ->
  occurs "." rest = false ->
  cleanParams m (PkgNameUsedInSourceStruct m +:+ "." +:+ rest) = rest.
Proof.
  intros Ha Hr. unfold cleanParams.
  change ("." +:+ rest) with (String "."%char rest).
  rewrite (Split_at _ _ _ Ha), (Split_free _ _ Hr).
  by destruct (decide (PkgNameUsedInSourceStruct m = PkgNameUsedInSourceStruct m)).
Qed.

Lemma cleanParams_other m param :
  (forall rest, occurs "." rest = false ->
                param <> PkgNameUsedInSourceStruct m +:+ "." +:+ rest) ->
  cleanParams m param = param.
Proof.
  intros Hn. unfold cleanParams.
  destruct (Split param ".") as [|e0 [|e1 [|e2 t]]] eqn:Hs; try done.
  destruct (decide (e0 = PkgNameUsedInSourceStruct m)) as [->|]; [|done].
  apply Split_two in Hs as (-> & _ & H1). by destruct (Hn e1 H1).
Qed.

(** A text in front of the qualifier keeps the whole type as it is. *)
Lemma cleanParams_prefixed m pre rest :
  pre <> "" ->
  cleanParams m (pre +:+ PkgNameUsedInSourceStruct m +:+ "." +:+ rest)
  = pre +:+ PkgNameUsedInSourceStruct m +:+ "." +:+ rest.
Proof.
  intros Hpre. unfold cleanParams.
  destruct (Split _ ".") as [|e0 [|e1 [|e2 t]]] eqn:Hs; try done.
  destruct (decide (e0 = PkgNameUsedInSourceStruct m)) as [->|]; [|done].
  exfalso. apply Split_two in Hs as (Heq & Ha & H1).
  set (a := PkgNameUsedInSourceStruct m) in *.
  rewrite <- append_assoc in Heq.
  change ("." +:+ rest) with (String "."%char rest) in Heq.
  destruct (occurs "." (pre +:+ a)) eqn:Hp.
  - by apply second_split in Heq.
  - apply first_split_unique in Heq as [Heq _]; [|done..].
    apply (f_equal String.length) in Heq. rewrite append_length in Heq.
    destruct pre; [done|]. simpl in Heq. lia.
Qed.

(** A qualifier other than the source package alias stays. *)
Lemma cleanParams_foreign m q rest :
  q <> PkgNameUsedInSourceStruct m ->
  cleanParams m (q +:+ "." +:+ rest) = q +:+ "." +:+ rest.
Proof.
  intros Hq. unfold cleanParams.
  destruct (Split _ ".") as [|e0 [|e1 [|e2 t]]] eqn:Hs; try done.
  destruct (decide (e0 = PkgNameUsedInSourceStruct m)) as [->|]; [|done].
  exfalso. apply Split_two in Hs as (Heq & Ha & H1).
  change ("." +:+ rest) with (String "."%char rest) in Heq.
  destruct (occurs "." q) eqn:Hp.
  - by apply second_split in Heq.
  - by apply first_split_unique in Heq as [Heq _].
Qed.

(** C8, as the code has it.  [cleanParams] rewrites a printed type exactly
    when its text is the source package alias, a dot, and a remainder free of
    dots, whether that remainder is an identifier or not (a generic
    instantiation is rewritten too); the result is the remainder.  Every
    other printed type is returned as it is: in particular the qualified name
    behind a pointer star, slice brackets or inside a function type, and a
    name under another qualifier. *)
Theorem cleanParams_qualifier (m : Maker) (param : string) :
  let alias := PkgNameUsedInSourceStruct m in
  (forall rest, occurs "." alias = false -> occurs "." rest = false ->
     cleanParams m (alias +:+ "." +:+ rest) = rest) /\
  ((forall rest, occurs "." rest = false -> param <> alias +:+ "." +:+ rest) ->
     cleanParams m param = param) /\
  (forall pre rest, pre <> "" ->
     cleanParams m (pre +:+ alias +:+ "." +:+ rest) = pre +:+ alias +:+ "." +:+ rest) /\
  (forall q rest, q <> alias ->
     cleanParams m (q +:+ "." +:+ rest) = q +:+ "." +:+ rest).
Proof.
  simpl. split; [|split; [|split]].
  - intros rest. apply cleanParams_strip.
  - apply cleanParams_other.
  - apply cleanParams_prefixed.
  - apply cleanParams_foreign.
Qed.

(** [pkg.Widget] loses its qualifier; [*pkg.Widget], [[]pkg.Widget],
    [func(pkg.A) pkg.B] and [other.Widget] keep theirs. *)
Lemma cleanParams_qualifier_witness :
  let m := newMaker "Foo" true "" "pkg" in
  cleanParams m "pkg.Widget" = "Widget" /\
  cleanParams m "*pkg.Widget" = "*pkg.Widget" /\
  cleanParams m "[]pkg.Widget" = "[]pkg.Widget" /\
  cleanParams m "func(pkg.A) pkg.B" = "func(pkg.A) pkg.B" /\
  cleanParams m "other.Widget" = "other.Widget".
Proof.
  pose proof (cleanParams_qualifier (newMaker "Foo" true "" "pkg") "") as (H1 & _ & H3 & H4).
  simpl in *. split; [|split; [|split; [|split]]].
  - apply (H1 "Widget"); reflexivity.
  - apply (H3 "*" "Widget"). discriminate.
  - apply (H3 "[]" "Widget"). discriminate.
  - apply (H3 "func(" "A) pkg.B"). discriminate.
  - apply (H4 "other" "Widget"). discriminate.
Defined.

(** C8, as stated, fails: [pkg.Widget[int]] is not the alias followed by an
    identifier, and still loses its qualifier. *)
Lemma cleanParams_generic_counterexample :
  let m := newMaker "Foo" true "" "pkg" in
  isIdentifier "Widget[int]" = false /\
  (forall ident, isIdentifier ident = true ->
     "pkg.Widget[int]" <> PkgNameUsedInSourceStruct m +:+ "." +:+ ident) /\
  cleanParams m "pkg.Widget[int]" = "Widget[int]" /\
  printParameters (H := Unix.lib ok) m
    (Some [mkField [] (IndexExpr (SelectorExpr (Ident "pkg") "Widget") (Ident "int"))])
  = ok "Widget[int]".
Proof.
  simpl. split; [reflexivity|]. split; [|split; reflexivity].
  intros ident Hid Heq. rewrite !append_cons, !append_nil in Heq.
  injection Heq as <-. discriminate.
Qed.

(** ** Rendering *)

Section Rendering.

Context `{GoLib}.

Lemma fold_left_lines {A} (f : A -> list string) (l : list A) (init : list string) :
  fold_left (fun output x => output ++ f x) l init = init ++ flat_map f l.
Proof.
  revert init. induction l as [|x l IH]; intros init; simpl.
  - by rewrite app_nil_r.
  - by rewrite IH, <- app_assoc.
Qed.

Lemma fold_left_imports (l : list (option importedPkg)) (init : list string) :
  fold_left
    (fun output pkgImport =>
       match pkgImport with
       | Some i => output ++ importedPkg_Lines i
       | None => output
       end) l init
  = init ++ map importLine (omap id l).
Proof.
  revert init. induction l as [|[i|] l IH]; intros init; simpl.
  - by rewrite app_nil_r.
  - by rewrite IH, <- app_assoc.
  - apply IH.
Qed.

(** C7.  The text handed to the formatter is, line by line and in this
    order: the marker comment, an empty line, the package clause, the opening
    of the import block, one line per registered import in the order of
    [m.imports], the closing of the block and the opening of the interface,
    the lines of each method in the order of [m.methods] (doc lines, then
    signature), and the closing brace. *)
Theorem makeInterface_layout (m : Maker) (pkgName ifaceName : string) :
  makeInterface m pkgName ifaceName =
  Join
    ([ "// Code generated by ifacemaker. DO NOT EDIT."; "";
       "package " +:+ pkgName; "import (" ]
     ++ map importLine (omap id (imports m))
     ++ [ ")"; "type " +:+ ifaceName +:+ " interface {" ]
     ++ flat_map methodLines (methods m)
     ++ [ "}" ])
    LF.
Proof.
  unfold makeInterface. rewrite fold_left_imports.
  rewrite (fold_left_lines method_Lines). f_equal.
  rewrite <- !app_assoc. reflexivity.
Qed.


End Rendering.

(** ** The loop over the declarations *)

(** Two Makers with the same fields are the same. *)
Lemma Maker_eq (m m' : Maker) :
  StructName m = StructName m' -> CopyDocs m = CopyDocs m' ->
  importsByPath m = importsByPath m' -> importsByAlias m = importsByAlias m' ->
  imports m = imports m' -> methods m = methods m' ->
  methodNames m = methodNames m' -> funcDecks m = funcDecks m' ->
  Output m = Output m' ->
  PkgNameUsedInSourceStruct m = PkgNameUsedInSourceStruct m' ->
  m = m'.
Proof. destruct m, m'; simpl; intros; congruence. Qed.

Lemma NumFields_grows (l : list Field) (n : nat) :
  n + length l <=
  fold_left (fun n g => let m := length (fieldNames g) in n + (if m =? 0 then 1 else m)) l n.
Proof.
  revert n. induction l as [|g l IH]; intros n; simpl; [lia|].
  specialize (IH (n + (if length (fieldNames g) =? 0 then 1 else length (fieldNames g)))).
  destruct (length (fieldNames g)) as [|k]; simpl in *; lia.
Qed.

Lemma getReceiverTypeName_receiverType fd :
  getReceiverTypeName (FuncDeclNode fd) =
  match receiverType fd with
  | Some name => (name, Some fd)
  | None => ("", None)
  end.
Proof.
  unfold getReceiverTypeName, receiverType, NumFields.
  destruct (fdRecv fd) as [[|f [|g l]]|]; simpl; [done| | |done].
  - destruct (fieldNames f) as [|x [|y names]]; simpl; [| |done].
    + by destruct (fieldType f) as [| [] | | | | | | |].
    + by destruct (fieldType f) as [| [] | | | | | | |].
  - pose proof (NumFields_grows l
      (0 + (if length (fieldNames f) =? 0 then 1 else length (fieldNames f))
         + (if length (fieldNames g) =? 0 then 1 else length (fieldNames g)))) as Hn.
    simpl in Hn.
    destruct (Nat.eqb_spec
      (fold_left
         (fun n g0 => n + (if length (fieldNames g0) =? 0 then 1 else length (fieldNames g0)))
         l ((if length (fieldNames f) =? 0 then 1 else length (fieldNames f))
            + (if length (fieldNames g) =? 0 then 1 else length (fieldNames g)))) 1) as [He|]; [|done].
    exfalso. destruct (length (fieldNames f)), (length (fieldNames g)); simpl in *; lia.
Qed.

Section Collector.

Context `{GoLib}.

Lemma set_funcDecks_id m : set_funcDecks (funcDecks m) m = m.
Proof. by destruct m. Qed.

(** One turn of the loop. *)
Lemma collectDecls_cons (m : Maker) (hasMethods : bool) (d : Decl) (decls : list Decl) :
  collectDecls m hasMethods (d :: decls) =
  if nilDeref (StructName m) d then None
  else
    match collectable (StructName m) d with
    | Some fd =>
        if decide (fdName fd ∈ methodNames m) then collectDecls m true decls
        else collectDecls (set_funcDecks (funcDecks m ++ [fd]) m) true decls
    | None => collectDecls m hasMethods decls
    end.
Proof.
  assert (Hshape :
    getReceiverTypeName d =
    match d with
    | FuncDeclNode fd =>
        match receiverType fd with Some name => (name, Some fd) | None => ("", None) end
    | _ => ("", None)
    end).
  { destruct d; [apply getReceiverTypeName_receiverType|done..]. }
  cbn [collectDecls]. rewrite Hshape. unfold nilDeref, collectable.
  destruct d as [fd| |].
  - destruct (receiverType fd) as [name|].
    + rewrite (bool_decide_eq_false_2 (Some name = None)) by done.
      rewrite andb_false_r.
      destruct (decide (name = StructName m)); [|done].
      by destruct (IsExported (fdName fd)).
    + rewrite (bool_decide_eq_true_2 (None = None)) by done. rewrite andb_true_r.
      destruct (decide ("" = StructName m)) as [He|Hne].
      * by rewrite bool_decide_eq_true_2.
      * by rewrite bool_decide_eq_false_2.
  - rewrite andb_true_r. destruct (decide ("" = StructName m)) as [He|Hne].
    + by rewrite bool_decide_eq_true_2.
    + by rewrite bool_decide_eq_false_2.
  - rewrite andb_true_r. destruct (decide ("" = StructName m)) as [He|Hne].
    + by rewrite bool_decide_eq_true_2.
    + by rewrite bool_decide_eq_false_2.
Qed.

Lemma pending_cons (m : Maker) (d : Decl) (decls : list Decl) :
  pending m (d :: decls) =
  match collectable (StructName m) d with
  | Some fd =>
      if decide (fdName fd ∈ methodNames m) then pending m decls
      else fd :: pending m decls
  | None => pending m decls
  end.
Proof.
  unfold pending. cbn [omap list_omap].
  change (list_omap _ _ ?f ?l) with (omap f l).
  destruct (collectable (StructName m) d) as [fd|]; [|done].
  destruct (decide (fdName fd ∈ methodNames m)).
  - by rewrite filter_cons_False by (simpl; tauto).
  - by rewrite filter_cons_True.
Qed.

(** The whole loop: it panics when a declaration makes line 80 dereference
    nil, and otherwise appends the pending declarations of the file to
    [m.funcDecks] and reports whether the file has a collectable
    declaration, pending or not. *)
Lemma collectDecls_spec (m : Maker) (hasMethods : bool) (decls : list Decl) :
  collectDecls m hasMethods decls =
  if existsb (nilDeref (StructName m)) decls then None
  else Some (set_funcDecks (funcDecks m ++ pending m decls) m,
             hasMethods || existsb (fun d => bool_decide (is_Some (collectable (StructName m) d))) decls).
Proof.
  revert m hasMethods. induction decls as [|d decls IH]; intros m hm.
  - unfold pending. simpl. by rewrite app_nil_r, set_funcDecks_id, orb_false_r.
  - rewrite collectDecls_cons, pending_cons. cbn [existsb].
    destruct (nilDeref (StructName m) d); [done|]. cbn [orb].
    destruct (collectable (StructName m) d) as [fd|].
    + rewrite bool_decide_eq_true_2 by eauto. rewrite orb_true_r. cbn [orb].
      destruct (decide (fdName fd ∈ methodNames m)); rewrite IH; [done|].
      cbn [StructName set_funcDecks].
      destruct (existsb _ decls); [done|]. do 2 f_equal.
      apply Maker_eq; try done. cbn. unfold pending. cbn.
      by rewrite <- app_assoc.
    + rewrite bool_decide_eq_false_2 by (intros [? ?]; done). cbn [orb]. apply IH.
Qed.

End Collector.

(** ** The loop over the collected declarations *)

Lemma names_cons fd l : names (fd :: l) = {[fdName fd]} ∪ names l.
Proof. reflexivity. Qed.

Lemma names_app l1 l2 : names (l1 ++ l2) = names l1 ∪ names l2.
Proof. unfold names. by rewrite map_app, list_to_set_app_L. Qed.

Lemma elem_of_names x l : x ∈ names l <-> exists fd, fd ∈ l /\ fdName fd = x.
Proof.
  unfold names. rewrite elem_of_list_to_set, list_elem_of_fmap.
  split; intros (fd & ? & ?); eauto.
Qed.

Lemma firstWins_app seen l1 l2 :
  firstWins seen (l1 ++ l2) = firstWins seen l1 ++ firstWins (seen ∪ names l1) l2.
Proof.
  revert seen. induction l1 as [|fd l1 IH]; intros seen; simpl.
  - unfold names. simpl. by rewrite (right_id_L ∅ (∪)).
  - rewrite names_cons. destruct (decide (fdName fd ∈ seen)) as [Hin|Hin].
    + rewrite IH. do 2 f_equal. set_solver.
    + simpl. rewrite IH. do 3 f_equal. set_solver.
Qed.

Lemma firstWins_seen seen l :
  Forall (fun fd => fdName fd ∈ seen) l -> firstWins seen l = [].
Proof.
  induction 1 as [|fd l Hin _ IH]; simpl; [done|].
  by destruct (decide (fdName fd ∈ seen)).
Qed.

Lemma firstWins_filter seen s l :
  seen ⊆ s ->
  firstWins s (filter (fun fd => fdName fd ∉ seen) l) = firstWins s l.
Proof.
  revert s. induction l as [|fd l IH]; intros s Hs; [done|].
  destruct (decide (fdName fd ∈ seen)) as [Hin|Hin].
  - rewrite filter_cons_False by (simpl; tauto). simpl.
    destruct (decide (fdName fd ∈ s)); [by apply IH|set_solver].
  - rewrite filter_cons_True by done. simpl.
    destruct (decide (fdName fd ∈ s)); [by apply IH|].
    f_equal. apply IH. set_solver.
Qed.

Lemma firstWins_NoDup seen l :
  NoDup (map fdName (firstWins seen l)) /\
  Forall (fun fd => fdName fd ∉ seen) (firstWins seen l).
Proof.
  revert seen. induction l as [|fd l IH]; intros seen; simpl.
  - split; constructor.
  - destruct (decide (fdName fd ∈ seen)) as [Hin|Hin]; [apply IH|].
    destruct (IH ({[fdName fd]} ∪ seen)) as [Hnd Hout]. simpl. split.
    + constructor; [|done]. rewrite list_elem_of_fmap. intros (g & Heq & Hg).
      rewrite Forall_forall in Hout. apply (Hout g Hg). set_solver.
    + constructor; [done|]. eapply Forall_impl; [exact Hout|]. set_solver.
Qed.


Lemma firstWins_nil l : firstWins ∅ l = [] -> l = [].
Proof.
  destruct l as [|fd l]; [done|]. simpl.
  destruct (decide (fdName fd ∈ ∅)); [set_solver|done].
Qed.

Section Methods.

Context `{GoLib}.

Lemma printFields_ext m1 m2 fields :
  PkgNameUsedInSourceStruct m1 = PkgNameUsedInSourceStruct m2 ->
  printFields m1 fields = printFields m2 fields.
Proof.
  intros Hp. induction fields as [|f fields IH]; simpl; [done|].
  rewrite IH. unfold cleanParams. by rewrite Hp.
Qed.

Lemma renderMethod_ext m1 m2 fd :
  PkgNameUsedInSourceStruct m1 = PkgNameUsedInSourceStruct m2 ->
  CopyDocs m1 = CopyDocs m2 ->
  renderMethod m1 fd = renderMethod m2 fd.
Proof.
  intros Hp Hc. unfold renderMethod, printParameters.
  destruct (fdParams fd), (fdResults fd);
    rewrite ?(printFields_ext m1 m2) by done; by rewrite Hc.
Qed.

Lemma renderMethods_cons m fd rest :
  renderMethods m (fd :: rest) =
  if decide (fdName fd ∈ methodNames m) then renderMethods m rest
  else
    match renderMethod m fd with
    | ok x => renderMethods (addMethod (fdName fd) x m) rest
    | failed e => (m, Some e)
    end.
Proof.
  cbn [renderMethods]. unfold renderMethod.
  destruct (decide (fdName fd ∈ methodNames m)); [done|].
  destruct (printParameters m (fdParams fd)); [|done].
  by destruct (printParameters m (fdResults fd)).
Qed.

(** A loop that ends without error has appended the records of the first
    occurrences among [fds], and nothing else has changed. *)
Lemma renderMethods_ok fds m m' :
  renderMethods m fds = (m', None) ->
  exists xs,
    Forall2 (fun fd x => renderMethod m fd = ok x) (firstWins (methodNames m) fds) xs /\
    m' = withMethods (methods m ++ xs) (methodNames m ∪ names fds) m.
Proof.
  revert m. induction fds as [|fd fds IH]; intros m.
  - simpl. intros [= <-]. exists []. split; [constructor|].
    apply Maker_eq; simpl; try done; [by rewrite app_nil_r|].
    unfold names. simpl. by rewrite (right_id_L ∅ (∪)).
  - rewrite renderMethods_cons. cbn [firstWins]. rewrite names_cons.
    destruct (decide (fdName fd ∈ methodNames m)) as [Hin|Hin].
    + intros Hr. destruct (IH m Hr) as (xs & Hxs & ->). exists xs. split; [done|].
      apply Maker_eq; simpl; try done. set_solver.
    + destruct (renderMethod m fd) as [x|e] eqn:Hx; [|done].
      intros Hr. destruct (IH _ Hr) as (xs & Hxs & ->). exists (x :: xs). split.
      * constructor; [done|]. eapply Forall2_impl; [exact Hxs|].
        intros g y <-. by apply renderMethod_ext.
      * apply Maker_eq; simpl; try done; [by rewrite <- app_assoc|set_solver].
Qed.


End Methods.

(** ** The loop over the imports *)

Section Imports.

Context `{GoLib}.

(** One turn of the loop. *)
Lemma harvestImports_cons targetPath m imp rest :
  harvestImports targetPath m (imp :: rest) =
  if decide (aliasOf imp = ".") then harvestImports targetPath m rest
  else
    match strconv_Unquote (impPathValue imp) with
    | failed e =>
        (m, Some (Wrap e ("parsing import `" +:+ impPathValue imp +:+ "` failed")))
    | ok path =>
        if HasSuffix targetPath path then
          harvestImports targetPath
            (if decide (aliasOf imp = "") then m
             else set_PkgNameUsedInSourceStruct (aliasOf imp) m) rest
        else
          match importsByPath m !! path with
          | Some existing =>
              if decide (Alias existing = aliasOf imp)
              then harvestImports targetPath m rest
              else
                (m, Some ("Package " +:+ strconv_Quote path +:+
                          " imported multiple times with different aliases: " +:+
                          errorAlias (Alias existing) +:+ ", " +:+ errorAlias (aliasOf imp)))
          | None =>
              if decide (aliasOf imp <> "" /\ is_Some (importsByAlias m !! aliasOf imp))
              then (m, Some ("Import alias " +:+ aliasOf imp +:+ " already in use"))
              else harvestImports targetPath (register (mkImportedPkg (aliasOf imp) path) m) rest
          end
    end.
Proof.
  cbn [harvestImports]. fold (aliasOf imp).
  destruct (decide (aliasOf imp = ".")); [done|].
  destruct (strconv_Unquote (impPathValue imp)); [|done].
  destruct (HasSuffix targetPath a); [done|].
  destruct (importsByPath m !! a); [done|].
  destruct (decide (aliasOf imp = "")) as [He|He].
  - rewrite decide_False by (intros [? _]; done). done.
  - destruct (importsByAlias m !! aliasOf imp) eqn:Ha.
    + rewrite decide_True by eauto. done.
    + rewrite decide_False by (intros [_ [? ?]]; done). done.
Qed.

Lemma harvestImports_app targetPath m l1 l2 :
  harvestImports targetPath m (l1 ++ l2) =
  match harvestImports targetPath m l1 with
  | (m', None) => harvestImports targetPath m' l2
  | r => r
  end.
Proof.
  revert m. induction l1 as [|imp l1 IH]; intros m; [done|].
  rewrite <- app_comm_cons, !harvestImports_cons.
  destruct (decide (aliasOf imp = ".")); [apply IH|].
  destruct (strconv_Unquote (impPathValue imp)); [|done].
  destruct (HasSuffix targetPath a); [apply IH|].
  destruct (importsByPath m !! a) as [existing|].
  - destruct (decide (Alias existing = aliasOf imp)); [apply IH|done].
  - destruct (decide _); [done|apply IH].
Qed.

(** The loop touches the imports and the source package alias only. *)
Lemma harvestImports_frame targetPath m imps m' e :
  harvestImports targetPath m imps = (m', e) ->
  StructName m' = StructName m /\ CopyDocs m' = CopyDocs m /\
  methods m' = methods m /\ methodNames m' = methodNames m /\
  funcDecks m' = funcDecks m /\ Output m' = Output m.
Proof.
  revert m. induction imps as [|imp imps IH]; intros m.
  - simpl. by intros [= <- <-].
  - rewrite harvestImports_cons.
    destruct (decide (aliasOf imp = ".")); [apply IH|].
    destruct (strconv_Unquote (impPathValue imp)); [|by intros [= <- <-]].
    destruct (HasSuffix targetPath a).
    { intros Hh. apply IH in Hh. by destruct (decide (aliasOf imp = "")). }
    destruct (importsByPath m !! a) as [existing|].
    + destruct (decide (Alias existing = aliasOf imp)); [apply IH|by intros [= <- <-]].
    + destruct (decide _); [by intros [= <- <-]|]. intros Hh. by apply IH in Hh.
Qed.

End Imports.

(** ** One call of [ParseSource] *)

Section Calls.

Context `{GoLib}.

Lemma resetNames_StructName m : StructName (resetNames m) = StructName m.
Proof. unfold resetNames. by destruct (methods m). Qed.


Lemma resetNames_fixed m : (methods m = [] -> methodNames m = ∅) -> resetNames m = m.
Proof.
  unfold resetNames. destruct (methods m) eqn:Hm; [|done].
  intros Hn. apply Maker_eq; try done. simpl. by rewrite Hn.
Qed.

Lemma no_collectable_pending m f :
  hasCollectable (StructName m) f = false -> pending m (Decls f) = [].
Proof.
  unfold hasCollectable, pending. induction (Decls f) as [|d decls IH]; [done|].
  cbn [existsb omap list_omap]. change (list_omap _ _ ?g ?l) with (omap g l).
  destruct (collectable (StructName m) d) as [fd|].
  - by rewrite bool_decide_eq_true_2 by eauto.
  - rewrite bool_decide_eq_false_2 by (intros [? ?]; done). apply IH.
Qed.

(** A call on a parsed file: it panics on a nil dereference, or returns at
    once when the file declares no collectable method, or goes through the
    imports and then through the collected declarations. *)
Lemma ParseSource_parsed currentPath m f :
  ParseSource (ok currentPath) m (ok f) =
  if existsb (nilDeref (StructName m)) (Decls f) then Panic
  else if hasCollectable (StructName m) f then
    match harvestImports (targetPathOf currentPath (Output m)) (collected m f) (Imports f) with
    | (mi, Some e) => Return mi (Some e)
    | (mi, None) =>
        let '(m', err) := renderMethods mi (funcDecks mi) in Return m' err
    end
  else Return (resetNames m) None.
Proof.
  unfold ParseSource. rewrite collectDecls_spec, resetNames_StructName.
  destruct (existsb (nilDeref _) _); [done|]. cbn [orb negb].
  fold (hasCollectable (StructName m) f). fold (collected m f).
  destruct (hasCollectable (StructName m) f) eqn:Hc; cbn [negb]; [done|].
  f_equal. unfold collected.
  rewrite no_collectable_pending by (by rewrite resetNames_StructName).
  by rewrite app_nil_r, set_funcDecks_id.
Qed.

End Calls.

(** ** What the loop over the imports leaves behind *)

Section Registry.

Context `{GoLib}.


(** Registered paths stay registered, with their entry. *)
Lemma harvestImports_monotone targetPath imps m m' e :
  harvestImports targetPath m imps = (m', e) ->
  forall path x, importsByPath m !! path = Some x -> importsByPath m' !! path = Some x.
Proof.
  revert m. induction imps as [|imp imps IH]; intros m.
  - simpl. by intros [= <- <-].
  - rewrite harvestImports_cons.
    destruct (decide (aliasOf imp = ".")); [apply IH|].
    destruct (strconv_Unquote (impPathValue imp)) as [p|]; [|by intros [= <- <-]].
    destruct (HasSuffix targetPath p).
    { intros Hh path x Hx. apply (IH _ Hh). by destruct (decide (aliasOf imp = "")). }
    destruct (importsByPath m !! p) as [existing|] eqn:Hp.
    + destruct (decide (Alias existing = aliasOf imp)); [apply IH|by intros [= <- <-]].
    + destruct (decide _); [by intros [= <- <-]|].
      intros Hh path x Hx. apply (IH _ Hh). simpl.
      rewrite lookup_insert_ne; [done|]. intros <-. congruence.
Qed.

(** A path that names the target location is never filed by the loop. *)
Lemma harvestImports_self targetPath imps m m' e path :
  harvestImports targetPath m imps = (m', e) ->
  HasSuffix targetPath path = true ->
  importsByPath m' !! path = importsByPath m !! path.
Proof.
  intros Hh Hself. revert m Hh. induction imps as [|imp imps IH]; intros m.
  - simpl. by intros [= <- <-].
  - rewrite harvestImports_cons.
    destruct (decide (aliasOf imp = ".")); [apply IH|].
    destruct (strconv_Unquote (impPathValue imp)) as [p|]; [|by intros [= <- <-]].
    destruct (HasSuffix targetPath p) eqn:Hp.
    { intros Hh. rewrite (IH _ Hh). by destruct (decide (aliasOf imp = "")). }
    destruct (importsByPath m !! p) as [existing|].
    + destruct (decide (Alias existing = aliasOf imp)); [apply IH|by intros [= <- <-]].
    + destruct (decide _); [by intros [= <- <-]|].
      intros Hh. rewrite (IH _ Hh). simpl.
      rewrite lookup_insert_ne; [done|]. intros <-. congruence.
Qed.

(** The import list only grows, at its end, by entries that do not name the
    target location. *)
Lemma harvestImports_appends targetPath imps m m' e :
  harvestImports targetPath m imps = (m', e) ->
  exists added,
    imports m' = imports m ++ map Some added /\
    Forall (fun i => HasSuffix targetPath (Path i) = false) added.
Proof.
  revert m. induction imps as [|imp imps IH]; intros m.
  - simpl. intros [= <- <-]. exists []. by rewrite app_nil_r.
  - rewrite harvestImports_cons.
    destruct (decide (aliasOf imp = ".")); [apply IH|].
    destruct (strconv_Unquote (impPathValue imp)) as [p|];
      [|intros [= <- <-]; exists []; by rewrite app_nil_r].
    destruct (HasSuffix targetPath p) eqn:Hp.
    { intros Hh. apply IH in Hh as (added & -> & Hadded). exists added.
      by destruct (decide (aliasOf imp = "")). }
    destruct (importsByPath m !! p) as [existing|].
    + destruct (decide (Alias existing = aliasOf imp));
        [apply IH|intros [= <- <-]; exists []; by rewrite app_nil_r].
    + destruct (decide _); [intros [= <- <-]; exists []; by rewrite app_nil_r|].
      intros Hh. apply IH in Hh as (added & -> & Hadded).
      exists (mkImportedPkg (aliasOf imp) p :: added). simpl.
      rewrite <- app_assoc. split; [done|]. by constructor.
Qed.

(** A loop that ends without error has sighted every specification, and
    leaves the alias of the last aliased self import, if there is one. *)
Lemma harvestImports_done targetPath imps m m' :
  harvestImports targetPath m imps = (m', None) ->
  Forall (sighted targetPath m') imps /\
  PkgNameUsedInSourceStruct m' = aliasAfter targetPath imps (PkgNameUsedInSourceStruct m).
Proof.
  unfold aliasAfter. revert m. induction imps as [|imp imps IH]; intros m.
  - simpl. intros [= <-]. by repeat split.
  - rewrite harvestImports_cons. cbn [selfAlias]. unfold aliasedSelf, sighted.
    destruct (decide (aliasOf imp = ".")) as [Hdot|Hdot].
    { intros Hh. destruct (IH _ Hh) as (Hs & Hp). split.
      - constructor; [by left|done].
      - rewrite Hp. rewrite (bool_decide_eq_true_2 _ Hdot). simpl.
        by destruct (selfAlias targetPath imps). }
    rewrite (bool_decide_eq_false_2 _ Hdot). cbn [negb andb].
    destruct (strconv_Unquote (impPathValue imp)) as [p|] eqn:Hu; [|done].
    destruct (HasSuffix targetPath p) eqn:Hself.
    { intros Hh. destruct (IH _ Hh) as (Hs & Hp). split.
      - constructor; [|done]. right. exists p. split; [done|by left].
      - rewrite Hp. destruct (selfAlias targetPath imps); [done|].
        destruct (decide (aliasOf imp = "")) as [He|He].
        + by rewrite (bool_decide_eq_true_2 _ He).
        + by rewrite (bool_decide_eq_false_2 _ He). }
    rewrite andb_false_r.
    destruct (importsByPath m !! p) as [existing|] eqn:Hlook.
    + destruct (decide (Alias existing = aliasOf imp)) as [Ha|]; [|done].
      intros Hh. destruct (IH _ Hh) as (Hs & Hp). split.
      * constructor; [|done]. right. exists p. split; [done|]. right. split; [done|].
        exists existing. split; [|done].
        apply (harvestImports_monotone _ _ _ _ _ Hh _ _ Hlook).
      * rewrite Hp. by destruct (selfAlias targetPath imps).
    + destruct (decide _); [done|]. intros Hh.
      destruct (IH _ Hh) as (Hs & Hp). split.
      * constructor; [|done]. right. exists p. split; [done|]. right. split; [done|].
        exists (mkImportedPkg (aliasOf imp) p). split; [|done].
        apply (harvestImports_monotone _ _ _ _ _ Hh). simpl. apply lookup_insert_eq.
      * rewrite Hp. by destruct (selfAlias targetPath imps).
Qed.


End Registry.

(** ** The state between two calls *)

Section Runs.

Context `{GoLib}.

Lemma Settled_new structName copyDocs output pkg :
  Settled (newMaker structName copyDocs output pkg) [].
Proof. repeat split; constructor. Qed.

Lemma Settled_resetNames m seen : Settled m seen -> resetNames m = m.
Proof.
  intros (Hn & Hm & _). apply resetNames_fixed. intros He. rewrite He in Hm.
  apply Forall2_nil_inv_r in Hm. apply firstWins_nil in Hm. by rewrite Hn, Hm.
Qed.

Lemma pending_names m decls :
  methodNames m ∪ names (pending m decls)
  = methodNames m ∪ names (omap (collectable (StructName m)) decls).
Proof.
  unfold pending. induction (omap (collectable (StructName m)) decls) as [|fd l IH]; [done|].
  destruct (decide (fdName fd ∈ methodNames m)) as [Hin|Hin].
  - rewrite filter_cons_False by (simpl; tauto). rewrite names_cons. set_solver.
  - rewrite filter_cons_True by done. rewrite !names_cons. set_solver.
Qed.

(** A call that returns without error takes a settled Maker to a settled
    Maker, which has also seen the collectable declarations of the file. *)
Lemma ParseSource_settled wd m seen f m' :
  Settled m seen ->
  ParseSource wd m (ok f) = Return m' None ->
  Settled m' (seen ++ omap (collectable (StructName m)) (Decls f)) /\
  StructName m' = StructName m /\ CopyDocs m' = CopyDocs m /\ Output m' = Output m.
Proof.
  intros HS. destruct wd as [currentPath|]; [|done].
  rewrite ParseSource_parsed. rewrite (Settled_resetNames _ _ HS). unfold collected.
  rewrite (Settled_resetNames _ _ HS). destruct HS as (Hn & Hm & Hd).
  destruct (existsb (nilDeref _) _); [done|].
  destruct (hasCollectable (StructName m) f) eqn:Hc.
  - destruct (harvestImports _ _ _) as [mi [e|]] eqn:Hh; [done|].
    apply harvestImports_frame in Hh as (HSn & HCd & Hme & Hmn & Hfd & HOut).
    simpl in Hme, Hmn, Hfd, HSn, HCd, HOut.
    destruct (renderMethods mi (funcDecks mi)) as [mr err] eqn:Hr.
    intros [= -> ->]. apply renderMethods_ok in Hr as (xs & Hxs & ->).
    simpl. rewrite Hfd, Hmn, Hme, HSn, HCd, HOut in *. split; [|done].
    repeat split; simpl.
    + rewrite !names_app. pose proof (pending_names m (Decls f)) as Hpn.
      assert (Hold : names (funcDecks m) ⊆ methodNames m).
      { intros x (fd & Hfd' & <-)%elem_of_names. rewrite Forall_forall in Hd.
        by apply Hd. }
      revert Hpn Hold. rewrite <- Hn.
      generalize (names (pending m (Decls f))) (names (funcDecks m))
                 (names (omap (collectable (StructName m)) (Decls f))) (methodNames m).
      clear. set_solver.
    + rewrite HCd, firstWins_app. apply Forall2_app; [done|].
      rewrite (left_id_L ∅ (∪)), <- Hn.
      rewrite firstWins_app in Hxs. rewrite (firstWins_seen _ _ Hd) in Hxs.
      rewrite app_nil_l in Hxs.
      assert (Hsub : methodNames m ∪ names (funcDecks m) = methodNames m).
      { assert (names (funcDecks m) ⊆ methodNames m); [|set_solver].
        intros x (fd & Hfd' & <-)%elem_of_names.
        rewrite Forall_forall in Hd. by apply Hd. }
      rewrite Hsub in Hxs. unfold pending in Hxs. rewrite firstWins_filter in Hxs by done.
      eapply Forall2_impl; [exact Hxs|]. intros fd x Hx. by exists mi.
    + rewrite Hfd, Forall_forall. intros fd Hfd'. rewrite names_app.
      apply elem_of_union_r, elem_of_union. rewrite !elem_of_names.
      apply elem_of_app in Hfd' as [?|?]; eauto.
  - intros [= <-].
    assert (Hnone : omap (collectable (StructName m)) (Decls f) = []).
    { revert Hc. unfold hasCollectable. induction (Decls f) as [|d decls IH]; [done|].
      cbn [existsb omap list_omap]. change (list_omap _ _ ?g ?l) with (omap g l).
      destruct (collectable (StructName m) d).
      - by rewrite bool_decide_eq_true_2 by eauto.
      - rewrite bool_decide_eq_false_2 by (intros [? ?]; done). apply IH. }
    rewrite Hnone, app_nil_r. by repeat split.
Qed.

(** A run over parsed files that ends without error. *)
Lemma parseAll_settled wd files m seen m' :
  Settled m seen ->
  Main.parseAll wd m (map ok files) = Return m' None ->
  Settled m' (seen ++ flat_map (fun f => omap (collectable (StructName m)) (Decls f)) files) /\
  StructName m' = StructName m /\ CopyDocs m' = CopyDocs m /\ Output m' = Output m.
Proof.
  revert m seen. induction files as [|f files IH]; intros m seen HS.
  - simpl. intros [= <-]. by rewrite app_nil_r.
  - cbn [map Main.parseAll flat_map].
    destruct (ParseSource wd m (ok f)) as [m1 [e|]|] eqn:Hp; [done| |done].
    apply (ParseSource_settled _ _ _ _ _ HS) in Hp as (HS1 & HSn & HCd & HOut).
    intros Hall. apply (IH _ _ HS1) in Hall as (HS' & -> & -> & ->).
    rewrite HSn in HS'. by rewrite app_assoc.
Qed.


End Runs.

(** * The claims *)

Section Claims.

Context `{GoLib}.


End Claims.


Lemma firstWins_NoDup_id l : NoDup (map fdName l) -> firstWins ∅ l = l.
Proof.
  assert (Hgen : forall seen, NoDup (map fdName l) ->
            Forall (fun fd => fdName fd ∉ seen) l -> firstWins seen l = l).
  { induction l as [|fd l IH]; intros seen Hnd Hout; [done|]. simpl.
    apply Forall_cons in Hout as [Hfd Hout]. apply NoDup_cons in Hnd as [Hfresh Hnd].
    destruct (decide (fdName fd ∈ seen)); [done|]. f_equal. apply IH; [done|].
    rewrite Forall_forall in Hout |- *. intros g Hg.
    rewrite elem_of_union, elem_of_singleton. intros [Heq|Hin]; [|by apply (Hout g)].
    apply Hfresh. rewrite <- Heq. by apply list_elem_of_fmap_2. }
  intros Hnd. apply Hgen; [done|]. rewrite Forall_forall. set_solver.
Qed.

Section Criterion.

Context `{GoLib}.

(** C6.  With a target type name, the loop over the declarations never
    panics and appends to [m.funcDecks] exactly the declarations that have
    one receiver binding whose type, after at most one pointer star, is the
    identifier of the target type, and whose name is exported, leaving out the
    names already collected.  A plain function, a receiver with several
    bindings, a doubly indirected receiver and a receiver that is not an
    identifier have no receiver type name.  When a new Maker processes one file
    without error, its methods are the records of these declarations, first
    occurrence of a name only; when their names differ, one record each. *)
Theorem collection_criterion (m : Maker) (f : File) :
  StructName m <> "" ->
  collectDecls m false (Decls f) =
    Some (set_funcDecks
            (funcDecks m ++
             filter (fun fd => fdName fd ∉ methodNames m)
               (omap (collectable (StructName m)) (Decls f))) m,
          hasCollectable (StructName m) f) /\
  (forall fd, collectable (StructName m) (FuncDeclNode fd) = Some fd <->
     receiverType fd = Some (StructName m) /\ IsExported (fdName fd) = true) /\
  (forall fd, getReceiverTypeName (FuncDeclNode fd) =
     match receiverType fd with Some name => (name, Some fd) | None => ("", None) end) /\
  (forall fd, fdRecv fd = None -> receiverType fd = None) /\
  (forall fd a b names t, fdRecv fd = Some [mkField (a :: b :: names) t] ->
     receiverType fd = None) /\
  (forall fd f1 f2 l, fdRecv fd = Some (f1 :: f2 :: l) -> receiverType fd = None) /\
  (forall fd names t, fdRecv fd = Some [mkField names (StarExpr (StarExpr t))] ->
     receiverType fd = None) /\
  (forall fd names x sel, fdRecv fd = Some [mkField names (SelectorExpr x sel)] ->
     receiverType fd = None) /\
  (forall wd copyDocs output pkg m',
     ParseSource wd (newMaker (StructName m) copyDocs output pkg) (ok f) = Return m' None ->
     let found := omap (collectable (StructName m)) (Decls f) in
     Forall2 (recordOf copyDocs) (firstWins ∅ found) (methods m') /\
     (NoDup (map fdName found) -> Forall2 (recordOf copyDocs) found (methods m'))).
Proof.
  intros Htarget. split; [|split; [|split; [|split; [|split; [|split; [|split; [|split]]]]]]].
  - rewrite collectDecls_spec.
    assert (Hnil : existsb (nilDeref (StructName m)) (Decls f) = false).
    { apply not_true_iff_false. rewrite existsb_exists. intros (d & _ & Hd).
      unfold nilDeref in Hd. by rewrite bool_decide_eq_false_2 in Hd. }
    by rewrite Hnil.
  - intros fd. unfold collectable. destruct (receiverType fd) as [name|].
    + destruct (decide (name = StructName m)) as [->|Hne].
      * destruct (IsExported (fdName fd)); split; (intros [? ?] || intros ?); done.
      * split; [done|]. intros [[= ?] _]. done.
    + split; [done|]. by intros [? _].
  - apply getReceiverTypeName_receiverType.
  - intros fd Hr. unfold receiverType. by rewrite Hr.
  - intros fd a b names t Hr. unfold receiverType. by rewrite Hr.
  - intros fd f1 f2 l Hr. unfold receiverType. by rewrite Hr.
  - intros fd names t Hr. unfold receiverType. rewrite Hr. simpl.
    by destruct names as [|? [|? ?]].
  - intros fd names x sel Hr. unfold receiverType. rewrite Hr. simpl.
    by destruct names as [|? [|? ?]].
  - intros wd copyDocs output pkg m' Hp found.
    apply (ParseSource_settled _ _ [] _ _ (Settled_new _ _ _ _)) in Hp
      as ((_ & Hm & _) & _ & HCd & _).
    simpl in Hm, HCd. rewrite HCd in Hm. subst found. split; [done|].
    intros Hnd. by rewrite (firstWins_NoDup_id _ Hnd) in Hm.
Qed.

End Criterion.

(** Of the declarations of [Examples.shapes] the engine takes [Get] and
    [Put], and renders one record each, with its doc line. *)
Lemma collection_criterion_witness :
  StructName Sample.foo <> "" /\
  (exists m',
     collectDecls (H := Unix.lib ok) Sample.foo false (Decls Examples.shapes) = Some (m', true) /\
     map fdName (funcDecks m') = ["Get"; "Put"]) /\
  (exists m',
     ParseSource (H := Unix.lib ok) (ok "/tmp") Sample.foo (ok Examples.shapes) = Return m' None /\
     methods m' =
       [ mkMethod "Get(id int) (error)" ["// Get is documented."];
         mkMethod "Put(id int) (error)" ["// Put is documented."] ]).
Proof.
  assert (Ht : StructName Sample.foo <> "") by discriminate.
  pose proof (collection_criterion (H := Unix.lib ok) Sample.foo Examples.shapes Ht)
    as (Hc & _).
  split; [exact Ht|]. split.
  - eexists. split; [rewrite Hc; vm_compute; reflexivity|]. vm_compute. reflexivity.
  - eexists. split; vm_compute; reflexivity.
Defined.

Section Harvest.

Context `{GoLib}.

(** C2, as the code has it.  A call on a parsed file that does not panic
    goes through the imports exactly when the file declares a method of the
    target type with an exported name, whether that name was collected
    before or not; otherwise it returns at once, and nothing but the reset of
    the method names has happened to the Maker. *)
Theorem harvest_condition (currentPath : string) (m : Maker) (f : File) :
  hasCollectable (StructName m) f =
    existsb
      (fun d =>
         match d with
         | FuncDeclNode fd =>
             bool_decide (receiverType fd = Some (StructName m)) && IsExported (fdName fd)
         | _ => false
         end) (Decls f) /\
  ParseSource (ok currentPath) m (ok f) =
    if existsb (nilDeref (StructName m)) (Decls f) then Panic
    else if hasCollectable (StructName m) f then
      match harvestImports (targetPathOf currentPath (Output m)) (collected m f) (Imports f) with
      | (mi, Some e) => Return mi (Some e)
      | (mi, None) =>
          let '(m', err) := renderMethods mi (funcDecks mi) in Return m' err
      end
    else Return (resetNames m) None.
Proof.
  split; [|apply ParseSource_parsed].
  unfold hasCollectable. induction (Decls f) as [|d decls IH]; [done|].
  cbn [existsb]. rewrite IH. f_equal. unfold collectable.
  destruct d as [fd| |]; [|by rewrite bool_decide_eq_false_2 by (intros [? ?]; done)..].
  destruct (receiverType fd) as [name|].
  - destruct (decide (name = StructName m)) as [->|Hne].
    + rewrite (bool_decide_eq_true_2 (Some _ = Some _)) by done.
      destruct (IsExported (fdName fd)).
      * by rewrite bool_decide_eq_true_2 by eauto.
      * by rewrite bool_decide_eq_false_2 by (intros [? ?]; done).
    + rewrite (bool_decide_eq_false_2 (Some _ = Some _)) by congruence.
      by rewrite bool_decide_eq_false_2 by (intros [? ?]; done).
  - rewrite (bool_decide_eq_false_2 (None = Some _)) by done.
    by rewrite bool_decide_eq_false_2 by (intros [? ?]; done).
Qed.

(** C1, as the code has it.  The target location is computed from the
    working directory and [m.Output] whatever [m.Output] is, the empty
    string included.  After a call that went through the imports and returned
    without error: a path that is a suffix of the target location has not
    been filed by this call, every other path of a non-dot import is
    registered under the alias written, the source package alias is that of
    the last aliased import of the target location, or unchanged when
    there is none, and the import list has grown at its end by entries that
    do not name the target location. *)
Theorem self_import_detection (currentPath : string) (m : Maker) (f : File) (m' : Maker) :
  ParseSource (ok currentPath) m (ok f) = Return m' None ->
  hasCollectable (StructName m) f = true ->
  let targetPath := filepath_Dir (currentPath +:+ os_PathSeparator +:+ Output m) in
  Forall
    (fun imp =>
       aliasOf imp = "." \/
       exists path, strconv_Unquote (impPathValue imp) = ok path /\
         if HasSuffix targetPath path
         then importsByPath m' !! path = importsByPath m !! path
         else exists e, importsByPath m' !! path = Some e /\ Alias e = aliasOf imp)
    (Imports f) /\
  PkgNameUsedInSourceStruct m'
    = aliasAfter targetPath (Imports f) (PkgNameUsedInSourceStruct m) /\
  exists added,
    imports m' = imports m ++ map Some added /\
    Forall (fun i => HasSuffix targetPath (Path i) = false) added.
Proof.
  rewrite ParseSource_parsed. intros Hp Hc targetPath. rewrite Hc in Hp.
  destruct (existsb (nilDeref _) _); [done|]. fold (targetPathOf currentPath (Output m)) in targetPath.
  destruct (harvestImports _ _ _) as [mi [e|]] eqn:Hh; [done|].
  destruct (renderMethods mi (funcDecks mi)) as [mr err] eqn:Hr.
  injection Hp as -> ->. apply renderMethods_ok in Hr as (xs & _ & ->).
  pose proof (harvestImports_done _ _ _ _ Hh) as (Hsight & Hpkg).
  pose proof (harvestImports_appends _ _ _ _ _ Hh) as (added & Himp & Hadded).
  assert (Hsame : importsByPath (collected m f) = importsByPath m
                  /\ imports (collected m f) = imports m
                  /\ PkgNameUsedInSourceStruct (collected m f) = PkgNameUsedInSourceStruct m).
  { unfold collected, resetNames. by destruct (methods m). }
  destruct Hsame as (Hbp & Hil & Hpk). simpl. split; [|split].
  - eapply Forall_impl; [exact Hsight|]. intros imp [Hdot|(path & Hu & Hcase)]; [by left|].
    right. exists path. split; [done|]. subst targetPath.
    destruct Hcase as [Hself|[Hself He]]; rewrite Hself; [|done].
    by rewrite (harvestImports_self _ _ _ _ _ _ Hh Hself), Hbp.
  - by rewrite Hpkg, Hpk.
  - exists added. by rewrite Himp, Hil.
Qed.

End Harvest.

(** With no output location and the process in
    [/go/src/example.com/widgets], the import of [Sample.fileA] is taken for
    the target location: it is not registered and its alias becomes the
    source package alias. *)
Lemma self_import_detection_witness :
  exists m',
    ParseSource (H := Unix.lib ok) (ok "/go/src/example.com/widgets") Sample.foo (ok Sample.fileA)
      = Return m' None /\
    hasCollectable (H := Unix.lib ok) (StructName Sample.foo) Sample.fileA = true /\
    PkgNameUsedInSourceStruct m'
      = aliasAfter (H := Unix.lib ok) "/go/src/example.com/widgets" (Imports Sample.fileA) "" /\
    exists added, imports m' = [] ++ map Some added.
Proof.
  eexists. split; [vm_compute; reflexivity|]. split; [vm_compute; reflexivity|].
  edestruct (self_import_detection (H := Unix.lib ok) "/go/src/example.com/widgets"
               Sample.foo Sample.fileA) as (_ & Hp & added & Ha & _);
    [vm_compute; reflexivity|vm_compute; reflexivity|].
  split; [exact Hp|]. exists added. exact Ha.
Defined.

(** C1, as stated, fails: [Sample.foo] has no output location, and still the
    import of [Sample.fileA] is left out of the import list and of the path
    index, and its alias [w] becomes the source package alias. *)
Lemma self_import_without_output_counterexample :
  exists m',
    Output Sample.foo = "" /\
    ParseSource (H := Unix.lib ok) (ok "/go/src/example.com/widgets") Sample.foo (ok Sample.fileA)
      = Return m' None /\
    imports m' = [] /\
    importsByPath m' !! "example.com/widgets" = None /\
    PkgNameUsedInSourceStruct m' = "w" /\
    methods m' = [mkMethod "Get() (Widget)" []].
Proof.
  eexists. split; [reflexivity|]. split; [vm_compute; reflexivity|].
  repeat split; vm_compute; reflexivity.
Qed.

(** C2, as stated, fails: the only method of [Sample.fileB] for the target
    type is [Get], which [Sample.fileA] has contributed already, so the file
    has nothing pending; its imports are gone through all the same, and the
    alias conflict stops the run. *)
Lemma harvest_on_collected_names_counterexample :
  exists m1,
    ParseSource (H := Unix.lib ok) (ok "/tmp") Sample.foo (ok Sample.fileA) = Return m1 None /\
    pending (H := Unix.lib ok) m1 (Decls Sample.fileB) = [] /\
    ParseSource (H := Unix.lib ok) (ok "/tmp") m1 (ok Sample.fileB)
      = Return m1
          (Some ("Package " +:+ DQ +:+ "example.com/widgets" +:+ DQ +:+
                 " imported multiple times with different aliases: w, v")).
Proof.
  eexists. split; [vm_compute; reflexivity|]. split; vm_compute; reflexivity.
Qed.

Section Conflicts.

Context `{GoLib}.

(** A call whose file yielded methods, up to the loop over the imports. *)
Lemma ParseSource_harvest currentPath m f mc :
  collectDecls (resetNames m) false (Decls f) = Some (mc, true) ->
  ParseSource (ok currentPath) m (ok f) =
  match harvestImports (targetPathOf currentPath (Output m)) mc (Imports f) with
  | (mi, Some e) => Return mi (Some e)
  | (mi, None) => let '(m', err) := renderMethods mi (funcDecks mi) in Return m' err
  end.
Proof. intros Hc. unfold ParseSource. by rewrite Hc. Qed.

(** C3.  In a file that yielded methods, let the loop over the imports
    reach, without error, a non-dot import whose path does not name the target
    location and is registered.  When the registered alias differs from the
    one written, the call returns the alias conflict error, which quotes the
    path and gives both aliases, an empty alias as [<none>]; when it is the
    same, the loop goes on with the Maker unchanged. *)
Theorem alias_conflict (currentPath : string) (m : Maker) (f : File) (mc : Maker)
    (pre : list ImportSpec) (imp : ImportSpec) (post : list ImportSpec)
    (mi : Maker) (path : string) (existing : importedPkg) :
  collectDecls (resetNames m) false (Decls f) = Some (mc, true) ->
  Imports f = pre ++ imp :: post ->
  harvestImports (targetPathOf currentPath (Output m)) mc pre = (mi, None) ->
  aliasOf imp <> "." ->
  strconv_Unquote (impPathValue imp) = ok path ->
  HasSuffix (targetPathOf currentPath (Output m)) path = false ->
  importsByPath mi !! path = Some existing ->
  (Alias existing <> aliasOf imp ->
     ParseSource (ok currentPath) m (ok f) =
     Return mi
       (Some ("Package " +:+ strconv_Quote path +:+
              " imported multiple times with different aliases: " +:+
              errorAlias (Alias existing) +:+ ", " +:+ errorAlias (aliasOf imp)))) /\
  (Alias existing = aliasOf imp ->
     harvestImports (targetPathOf currentPath (Output m)) mc (pre ++ [imp]) = (mi, None)) /\
  errorAlias "" = "<none>" /\
  (forall alias, alias <> "" -> errorAlias alias = alias).
Proof.
  intros Hc Hi Hpre Hdot Hu Hself Hlook. split; [|split; [|split]].
  - intros Hne. rewrite (ParseSource_harvest _ _ _ _ Hc), Hi.
    rewrite harvestImports_app, Hpre, harvestImports_cons.
    rewrite decide_False by done. rewrite Hu, Hself, Hlook.
    by rewrite decide_False by done.
  - intros He. rewrite harvestImports_app, Hpre, harvestImports_cons.
    rewrite decide_False by done. rewrite Hu, Hself, Hlook.
    by rewrite decide_True by done.
  - done.
  - intros alias Ha. unfold errorAlias. by rewrite decide_False.
Qed.

(** C4.  In a file that yielded methods, let the loop over the imports
    reach, without error, a non-dot import whose path does not name the target
    location and is not registered.  When its alias is not empty and is in
    the alias index, the call returns the alias-in-use error, which gives the
    alias.  Otherwise the entry is filed under its path, under its alias,
    and appended to the import list.  The import list only ever grows at its
    end. *)
Theorem alias_in_use (currentPath : string) (m : Maker) (f : File) (mc : Maker)
    (pre : list ImportSpec) (imp : ImportSpec) (post : list ImportSpec)
    (mi : Maker) (path : string) :
  collectDecls (resetNames m) false (Decls f) = Some (mc, true) ->
  Imports f = pre ++ imp :: post ->
  harvestImports (targetPathOf currentPath (Output m)) mc pre = (mi, None) ->
  aliasOf imp <> "." ->
  strconv_Unquote (impPathValue imp) = ok path ->
  HasSuffix (targetPathOf currentPath (Output m)) path = false ->
  importsByPath mi !! path = None ->
  let entry := mkImportedPkg (aliasOf imp) path in
  (aliasOf imp <> "" -> is_Some (importsByAlias mi !! aliasOf imp) ->
     ParseSource (ok currentPath) m (ok f) =
     Return mi (Some ("Import alias " +:+ aliasOf imp +:+ " already in use"))) /\
  (aliasOf imp = "" \/ importsByAlias mi !! aliasOf imp = None ->
     harvestImports (targetPathOf currentPath (Output m)) mc (pre ++ [imp])
       = (register entry mi, None) /\
     importsByPath (register entry mi) !! path = Some entry /\
     (aliasOf imp <> "" -> importsByAlias (register entry mi) !! aliasOf imp = Some entry) /\
     imports (register entry mi) = imports mi ++ [Some entry]) /\
  (forall targetPath m0 imps m' e,
     harvestImports targetPath m0 imps = (m', e) ->
     exists added, imports m' = imports m0 ++ map Some added).
Proof.
  intros Hc Hi Hpre Hdot Hu Hself Hlook entry. split; [|split].
  - intros Ha Hin. rewrite (ParseSource_harvest _ _ _ _ Hc), Hi.
    rewrite harvestImports_app, Hpre, harvestImports_cons.
    rewrite decide_False by done. rewrite Hu, Hself, Hlook.
    by rewrite decide_True by done.
  - intros Hfree. split; [|split; [|split]].
    + rewrite harvestImports_app, Hpre, harvestImports_cons.
      rewrite decide_False by done. rewrite Hu, Hself, Hlook.
      rewrite decide_False; [done|].
      intros [Ha [x Hx]]. destruct Hfree as [?|Hnone]; [done|]. by rewrite Hnone in Hx.
    + simpl. apply lookup_insert_eq.
    + intros _. simpl. apply lookup_insert_eq.
    + done.
  - intros targetPath m0 imps m' e Hh.
    apply harvestImports_appends in Hh as (added & ? & _). by exists added.
Qed.

End Conflicts.

(** [Sample.fileB] after [Sample.fileA]: the same path, first as [w], then
    as [v]. *)
Lemma alias_conflict_witness :
  ParseSource (H := Unix.lib ok) (ok "/tmp") Examples.afterA (ok Sample.fileB) =
  Return Examples.afterA
    (Some ("Package " +:+ DQ +:+ "example.com/widgets" +:+ DQ +:+
           " imported multiple times with different aliases: w, v")).
Proof.
  refine (proj1 (alias_conflict (H := Unix.lib ok) "/tmp" Examples.afterA Sample.fileB
                   Examples.afterA [] (Sample.import (Some "v") "example.com/widgets") []
                   Examples.afterA "example.com/widgets"
                   (mkImportedPkg "w" "example.com/widgets") _ _ _ _ _ _ _) _);
    try (vm_compute; reflexivity); discriminate.
Defined.

(** [import w "example.com/gadgets"] after [Sample.fileA], which has
    registered [w] for another path.  The Maker is left with the new
    declaration among its [funcDecks]. *)
Lemma alias_in_use_witness :
  let put := mkFuncDecl None (Some [mkField ["f"] (StarExpr (Ident "Foo"))]) "Put"
               (Some []) (Some [mkField [] (Ident "int")]) in
  let file := mkFile [FuncDeclNode put] [Sample.import (Some "w") "example.com/gadgets"] in
  let mc := set_funcDecks (funcDecks Examples.afterA ++ [put]) Examples.afterA in
  ParseSource (H := Unix.lib ok) (ok "/tmp") Examples.afterA (ok file) =
  Return mc (Some "Import alias w already in use").
Proof.
  intros put file mc.
  refine (proj1 (alias_in_use (H := Unix.lib ok) "/tmp" Examples.afterA file mc
                   [] (Sample.import (Some "w") "example.com/gadgets") []
                   mc "example.com/gadgets" _ _ _ _ _ _ _) _ _);
    try (vm_compute; reflexivity); try discriminate.
  vm_compute. eexists. reflexivity.
Defined.

Section Determinism.

Context `{GoLib}.





End Determinism.



(** * Further properties of the engine *)

(** ** Suffixes *)

Lemma substring_all s : substring 0 (String.length s) s = s.
Proof. induction s as [|c s IH]; simpl; [done|]. by rewrite IH. Qed.

Lemma substring_skip pre s n :
  substring (String.length pre) n (pre +:+ s) = substring 0 n s.
Proof.
  induction pre as [|c pre IH]; [done|].
  rewrite append_cons. simpl. exact IH.
Qed.

(** A text ends in each of its tails. *)
Lemma HasSuffix_app pre s : HasSuffix (pre +:+ s) s = true.
Proof.
  unfold HasSuffix. rewrite append_length.
  replace (String.length pre + String.length s - String.length s)
    with (String.length pre) by lia.
  rewrite substring_skip, substring_all, String.eqb_refl, andb_true_r.
  apply Nat.leb_le. lia.
Qed.

(** ** Qualifier stripping, once more *)

Section Stripping.

Context `{GoLib}.

(** X1.  [cleanParams] returns its argument or, when it strips, the text
    after the only dot, which holds no dot; so stripping twice is stripping
    once, and the result is never longer than the argument. *)
Theorem cleanParams_idempotent (m : Maker) (param : string) :
  (cleanParams m param = param \/
   param = PkgNameUsedInSourceStruct m +:+ "." +:+ cleanParams m param /\
   occurs "." (cleanParams m param) = false) /\
  cleanParams m (cleanParams m param) = cleanParams m param /\
  String.length (cleanParams m param) <= String.length param.
Proof.
  assert (Hcases : cleanParams m param = param \/
            param = PkgNameUsedInSourceStruct m +:+ "." +:+ cleanParams m param /\
            occurs "." (cleanParams m param) = false).
  { unfold cleanParams.
    destruct (Split param ".") as [|e0 [|e1 [|e2 l]]] eqn:HS; auto.
    destruct (decide (e0 = PkgNameUsedInSourceStruct m)) as [<-|]; auto.
    right. apply Split_two in HS as (-> & _ & H1). by split. }
  split; [exact Hcases|].
  destruct Hcases as [Heq|[Heq Hfree]].
  - rewrite !Heq. split; [reflexivity|lia].
  - split.
    + unfold cleanParams at 1. by rewrite (Split_free _ _ Hfree).
    + rewrite Heq at 2. rewrite !append_length. lia.
Qed.

End Stripping.

(** ** The text of a parameter list *)

Lemma Join_cons_cons x y l sep : Join (x :: y :: l) sep = x +:+ sep +:+ Join (y :: l) sep.
Proof. reflexivity. Qed.

Lemma append_nil_r s : s +:+ "" = s.
Proof. induction s as [|c s IH]; [done|]. by rewrite append_cons, IH. Qed.

Section Parameters.

Context `{GoLib}.

Lemma printNames_text (txt : Expr -> string) (ns : list string) :
  Forall (fun n => printer_Fprint (Ident n) = ok (txt (Ident n))) ns ->
  printNames ns =
  ok match ns with
     | [] => ""
     | _ => Join (map (fun n => txt (Ident n)) ns) "," +:+ " "
     end.
Proof.
  induction 1 as [|n ns Hn Hns IH]; [done|].
  cbn [printNames]. rewrite Hn, IH. cbn [wrapped bind].
  destruct ns as [|n' ns]; [done|].
  cbn [map]. rewrite Join_cons_cons, !append_assoc. done.
Qed.

Lemma firstFailure_app (a b : list (role * Expr)) :
  firstFailure (a ++ b) =
  match firstFailure a with
  | Some msg => Some msg
  | None => firstFailure b
  end.
Proof.
  induction a as [|[r n] a IH]; [done|].
  cbn [app firstFailure]. by destruct (printer_Fprint n).
Qed.

Lemma firstFailure_none (ns : list (role * Expr)) (txt : Expr -> string) :
  Forall (fun p => printer_Fprint p.2 = ok (txt p.2)) ns -> firstFailure ns = None.
Proof.
  induction 1 as [|[r n] ns Hn _ IH]; [done|].
  cbn [firstFailure]. simpl in Hn. by rewrite Hn.
Qed.

Lemma firstFailure_at (pre post : list (role * Expr)) r n e :
  Forall (fun p => exists s, printer_Fprint p.2 = ok s) pre ->
  printer_Fprint n = failed e ->
  firstFailure (pre ++ (r, n) :: post) = Some (Wrap e (roleMessage r)).
Proof.
  intros Hpre Hn. induction Hpre as [|[r' n'] pre [s Hs] _ IH].
  - cbn [app firstFailure]. by rewrite Hn.
  - cbn [app firstFailure]. simpl in Hs. by rewrite Hs.
Qed.

Lemma printNames_failure (ns : list string) :
  match printNames ns with
  | ok _ => firstFailure (map (fun n => (AsName, Ident n)) ns) = None
  | failed msg => firstFailure (map (fun n => (AsName, Ident n)) ns) = Some msg
  end.
Proof.
  induction ns as [|n ns IH]; [done|].
  cbn [printNames map firstFailure].
  destruct (printer_Fprint (Ident n)) as [s|e]; cbn [wrapped bind]; [|done].
  destruct (printNames ns); cbn [bind]; exact IH.
Qed.

Lemma printFields_failure (m : Maker) (l : list Field) :
  match printFields m l with
  | ok _ => firstFailure (nodes l) = None
  | failed msg => firstFailure (nodes l) = Some msg
  end.
Proof.
  induction l as [|f l IH]; [done|].
  unfold nodes. cbn [flat_map]. fold (nodes l).
  rewrite !firstFailure_app. cbn [printFields firstFailure].
  pose proof (printNames_failure (fieldNames f)) as HN.
  destruct (printNames (fieldNames f)); cbn [bind]; rewrite HN; [|done].
  destruct (printer_Fprint (fieldType f)); cbn [wrapped bind]; [|done].
  destruct (printFields m l); cbn [bind]; exact IH.
Qed.

Lemma nodes_cons f l :
  nodes (f :: l) =
  map (fun n => (AsName, Ident n)) (fieldNames f) ++ (AsType, fieldType f) :: nodes l.
Proof. unfold nodes. cbn [flat_map]. by rewrite <- app_assoc. Qed.

(** X2.  When the nodes of a parameter list print, the text is that of its
    fields separated by commas, a field being its names separated by commas,
    a space, and its type after [cleanParams]; a field without names is its
    type alone, and a list without fields is the empty text. *)
Theorem printParameters_text (m : Maker) (txt : Expr -> string) (l : list Field) :
  Forall (fun p => printer_Fprint p.2 = ok (txt p.2)) (nodes l) ->
  printParameters m (Some l) = ok (Join (map (fieldText m txt) l) ",").
Proof.
  cbn [printParameters]. induction l as [|f l IH]; [done|].
  rewrite nodes_cons. intros Hall.
  apply Forall_app in Hall as [Hnames Hrest].
  apply Forall_cons in Hrest as [Htype Hrest]. simpl in Htype.
  cbn [printFields].
  rewrite (printNames_text txt).
  2:{ by apply Forall_map in Hnames. }
  rewrite Htype, (IH Hrest). cbn [wrapped bind]. f_equal.
  rewrite <- (append_assoc _ (cleanParams m _)).
  assert (Hf : forall rest,
            (match fieldNames f with
             | [] => ""
             | _ => Join (map (fun n => txt (Ident n)) (fieldNames f)) "," +:+ " "
             end +:+ cleanParams m (txt (fieldType f))) +:+ rest
            = fieldText m txt f +:+ rest).
  { intros rest. unfold fieldText. by destruct (fieldNames f). }
  rewrite Hf. destruct l as [|f' l].
  - cbn [map Join String.concat]. by rewrite !append_nil_r.
  - cbn [map]. by rewrite Join_cons_cons.
Qed.

(** X3.  [printParameters] fails exactly when one of its nodes does not
    print, and then with the error of the first such node in source order,
    wrapped as a name or as a type according to the node's place. *)
Theorem printParameters_first_failure (m : Maker) (l : list Field)
    (pre post : list (role * Expr)) (r : role) (n : Expr) (e : string) :
  nodes l = pre ++ (r, n) :: post ->
  Forall (fun p => exists s, printer_Fprint p.2 = ok s) pre ->
  printer_Fprint n = failed e ->
  printParameters m (Some l) = failed (Wrap e (roleMessage r)) /\
  (forall l', (exists s, printParameters m (Some l') = ok s) <->
              Forall (fun p => exists s, printer_Fprint p.2 = ok s) (nodes l')).
Proof.
  intros Hnodes Hpre Hn. split.
  - cbn [printParameters].
    pose proof (printFields_failure m l) as HF.
    rewrite Hnodes, (firstFailure_at _ _ _ _ _ Hpre Hn) in HF.
    destruct (printFields m l); congruence.
  - intros l'. cbn [printParameters].
    pose proof (printFields_failure m l') as HF. split.
    + intros [s Hs]. rewrite Hs in HF. clear Hs.
      induction (nodes l') as [|[r' n'] ns IH]; [done|].
      cbn [firstFailure] in HF.
      destruct (printer_Fprint n') eqn:Hn'; [|done].
      constructor; [by eexists|by apply IH].
    + intros Hall. destruct (printFields m l') as [s|msg]; [by eexists|].
      exfalso. clear -Hall HF.
      induction Hall as [|[r' n'] ns [s Hs] _ IH]; [done|].
      cbn [firstFailure] in HF. simpl in Hs. rewrite Hs in HF. by apply IH.
Qed.

End Parameters.

(** [(a, b int, pkg.T)] under the source package alias [pkg]. *)
Lemma printParameters_text_witness :
  printParameters (H := Unix.lib ok) (newMaker "Foo" true "" "pkg")
    (Some [mkField ["a"; "b"] (Ident "int");
           mkField [] (SelectorExpr (Ident "pkg") "T")])
  = ok "a,b int,T".
Proof.
  apply (printParameters_text (H := Unix.lib ok) (newMaker "Foo" true "" "pkg")
           Unix.printExpr
           [mkField ["a"; "b"] (Ident "int");
            mkField [] (SelectorExpr (Ident "pkg") "T")]).
  repeat constructor.
Defined.

(** [(a int, b ?)], the type of [b] being a node the printer refuses. *)
Lemma printParameters_first_failure_witness :
  printParameters (H := Examples.strict) (newMaker "Foo" true "" "pkg")
    (Some [mkField ["a"] (Ident "int"); mkField ["b"] (OtherExpr "?")])
  = failed "failed printing parameter type: go/printer: unsupported node type".
Proof.
  apply (proj1 (printParameters_first_failure (H := Examples.strict)
                  (newMaker "Foo" true "" "pkg")
                  [mkField ["a"] (Ident "int"); mkField ["b"] (OtherExpr "?")]
                  [(AsName, Ident "a"); (AsType, Ident "int"); (AsName, Ident "b")] []
                  AsType (OtherExpr "?") "go/printer: unsupported node type"
                  eq_refl
                  ltac:(repeat constructor; by eexists)
                  eq_refl)).
Defined.

(** ** What every stage of a call preserves *)

Section Stages.

Context `{GoLib}.

(** The loop over the collected declarations, however it ends: the methods
    grow at their end by the records of declarations of the list, the method
    names by their names, and nothing else changes. *)
Lemma renderMethods_any fds m m' e :
  renderMethods m fds = (m', e) ->
  exists done xs,
    Forall2 (fun fd x => renderMethod m fd = ok x) done xs /\
    Forall (fun fd => fd ∈ fds) done /\
    NoDup (map fdName done) /\
    Forall (fun fd => fdName fd ∉ methodNames m) done /\
    m' = withMethods (methods m ++ xs) (methodNames m ∪ names done) m.
Proof.
  revert m. induction fds as [|fd fds IH]; intros m Hr.
  - injection Hr as <- <-. exists [], []. repeat split; try constructor.
    destruct m; unfold withMethods, names; simpl. rewrite app_nil_r. f_equal. set_solver.
  - rewrite renderMethods_cons in Hr.
    destruct (decide (fdName fd ∈ methodNames m)) as [Hin|Hnin].
    + destruct (IH _ Hr) as (done & xs & H1 & H2 & H3 & H4 & H5).
      exists done, xs. repeat split; try done.
      eapply Forall_impl; [exact H2|]. intros; by apply list_elem_of_further.
    + destruct (renderMethod m fd) as [x|msg] eqn:Hx.
      * destruct (IH _ Hr) as (done & xs & H1 & H2 & H3 & H4 & H5).
        exists (fd :: done), (x :: xs). split; [|split; [|split; [|split]]].
        -- constructor; [done|]. eapply Forall2_impl; [exact H1|].
           intros fd' x' <-. apply renderMethod_ext; done.
        -- constructor; [apply list_elem_of_here|].
           eapply Forall_impl; [exact H2|]. intros; by apply list_elem_of_further.
        -- cbn [map]. constructor; [|done].
           intros Hin. apply list_elem_of_fmap in Hin as (fd' & Heq & Hfd').
           rewrite Forall_forall in H4. apply (H4 _ Hfd').
           simpl. rewrite <- Heq. set_solver.
        -- constructor; [done|]. eapply Forall_impl; [exact H4|].
           simpl. intros; set_solver.
        -- rewrite H5. unfold withMethods, addMethod; simpl.
           rewrite names_cons, <- app_assoc. f_equal. set_solver.
      * injection Hr as <- <-. exists [], []. repeat split; try constructor.
        destruct m; unfold withMethods, names; simpl. rewrite app_nil_r. f_equal. set_solver.
Qed.

(** One call, stage by stage: what the reset of the method names, the
    collection of the declarations of the file, the loop over the imports
    and the loop over the collected declarations all preserve is preserved by
    the call, however it returns. *)
Lemma ParseSource_preserves (P : Maker -> Prop) wd m a m' e :
  (forall x, P x -> P (resetNames x)) ->
  (forall x f, a = ok f -> P x ->
     P (set_funcDecks (funcDecks x ++ pending x (Decls f)) x)) ->
  (forall cwd x imps x' e', wd = ok cwd -> P x ->
     harvestImports (targetPathOf cwd (Output m)) x imps = (x', e') -> P x') ->
  (forall x x' e', P x -> renderMethods x (funcDecks x) = (x', e') -> P x') ->
  P m -> ParseSource wd m a = Return m' e -> P m'.
Proof.
  intros Hreset Hcollect Hharvest Hrender Hm.
  destruct wd as [cwd|msg]; [|intros [= <- <-]; done].
  destruct a as [f|msg]; [|intros [= <- <-]; by apply Hreset].
  rewrite ParseSource_parsed.
  destruct (existsb _ _); [done|].
  assert (Hc : P (collected m f)). { apply (Hcollect _ f eq_refl), Hreset, Hm. }
  destruct (hasCollectable _ f); [|intros [= <- <-]; by apply Hreset].
  destruct (harvestImports _ _ _) as [mi [ei|]] eqn:Hh.
  - intros [= <- <-]. eapply Hharvest; [done|exact Hc|exact Hh].
  - destruct (renderMethods mi (funcDecks mi)) as [mr er] eqn:Hr.
    intros [= <- <-]. eapply Hrender; [|exact Hr].
    eapply Hharvest; [done|exact Hc|exact Hh].
Qed.

Lemma parseAll_preserves (P : Maker -> Prop) wd parsed m m' e :
  (forall x, P x -> P (resetNames x)) ->
  (forall x f, ok f ∈ parsed -> P x ->
     P (set_funcDecks (funcDecks x ++ pending x (Decls f)) x)) ->
  (forall targetPath x imps x' e', P x ->
     harvestImports targetPath x imps = (x', e') -> P x') ->
  (forall x x' e', P x -> renderMethods x (funcDecks x) = (x', e') -> P x') ->
  P m -> Main.parseAll wd m parsed = Return m' e -> P m'.
Proof.
  intros Hreset Hcollect Hharvest Hrender. revert m.
  induction parsed as [|a parsed IH]; intros m Hm; [by intros [= <- <-]|].
  cbn [Main.parseAll].
  destruct (ParseSource wd m a) as [m1 e1|] eqn:Hcall; [|done].
  assert (H1 : P m1).
  { eapply (ParseSource_preserves P); try exact Hcall; try done.
    - intros x f -> Hx. apply Hcollect; [apply list_elem_of_here|done].
    - intros cwd x imps x' e' _. apply Hharvest. }
  destruct e1 as [msg|]; [by intros [= <- <-]|].
  apply IH; [|done].
  intros x f Hf. apply Hcollect. by apply list_elem_of_further.
Qed.

End Stages.

(** ** The import registry *)

Section Consistency.

Context `{GoLib}.

Lemma harvestImports_dot targetPath m imps :
  harvestImports targetPath m imps =
  harvestImports targetPath m (filter (fun imp => aliasOf imp <> ".") imps).
Proof.
  revert m. induction imps as [|imp imps IH]; intros m; [done|].
  rewrite harvestImports_cons.
  destruct (decide (aliasOf imp = ".")) as [Hdot|Hdot].
  - rewrite filter_cons_False by (intros Hn; by apply Hn). apply IH.
  - rewrite filter_cons_True by done. rewrite harvestImports_cons.
    rewrite (decide_False (P := aliasOf imp = ".")) by done.
    destruct (strconv_Unquote _); [|done].
    destruct (HasSuffix _ _); [apply IH|].
    destruct (importsByPath m !! a).
    + destruct (decide _); [apply IH|done].
    + destruct (decide _); [done|apply IH].
Qed.

(** X4.  Dot imports are ignored: a call on a file is the call on the
    file without its dot imports, in outcome, error and Maker alike. *)
Theorem dot_imports_ignored (wd : result string) (m : Maker) (f : File) :
  ParseSource wd m (ok f) =
  ParseSource wd m
    (ok (mkFile (Decls f) (filter (fun imp => aliasOf imp <> ".") (Imports f)))).
Proof.
  unfold ParseSource. destruct wd as [cwd|msg]; [|done].
  cbn [Decls Imports].
  destruct (collectDecls _ _ _) as [[mc hasMethods]|]; [|done].
  destruct (negb hasMethods); [done|].
  by rewrite harvestImports_dot.
Qed.

Lemma Consistent_ext m m' :
  imports m' = imports m -> importsByPath m' = importsByPath m ->
  importsByAlias m' = importsByAlias m -> Consistent m -> Consistent m'.
Proof. unfold Consistent. intros -> -> ->. done. Qed.

Lemma Consistent_register m alias path :
  Consistent m ->
  importsByPath m !! path = None ->
  (alias = "" \/ importsByAlias m !! alias = None) ->
  Consistent (register (mkImportedPkg alias path) m).
Proof.
  intros (Hnd & Hlist & Hpath & Halias & Hfound) Hfresh Hfree.
  assert (Hnew : Some (mkImportedPkg alias path) ∉ imports m).
  { intros Hin. destruct (Hlist _ Hin) as (e & [= <-] & He). simpl in He. congruence. }
  unfold Consistent, register. cbn [imports importsByPath importsByAlias Path Alias].
  split; [|split; [|split; [|split]]].
  - apply NoDup_app. split; [done|]. split; [|apply NoDup_singleton].
    intros i Hi ->%list_elem_of_singleton. done.
  - intros i [Hi| ->%list_elem_of_singleton]%elem_of_app.
    + destruct (Hlist _ Hi) as (e & -> & He). exists e. split; [done|].
      rewrite lookup_insert_ne; [done|]. intros Heq. congruence.
    + eexists. split; [done|]. simpl. by rewrite lookup_insert_eq.
  - intros p e. destruct (decide (p = path)) as [->|Hne].
    + rewrite lookup_insert_eq. intros [= <-]. split; [done|].
      apply elem_of_app. right. by apply list_elem_of_singleton.
    + rewrite lookup_insert_ne by done. intros He.
      destruct (Hpath _ _ He) as [? ?]. split; [done|]. apply elem_of_app. by left.
  - intros a e. destruct (decide (a = alias)) as [->|Hne].
    + rewrite lookup_insert_eq. intros [= <-]. split; [done|].
      apply elem_of_app. right. by apply list_elem_of_singleton.
    + rewrite lookup_insert_ne by done. intros He.
      destruct (Halias _ _ He) as [? ?]. split; [done|]. apply elem_of_app. by left.
  - intros e [He| [= ->]%list_elem_of_singleton]%elem_of_app Hne.
    + rewrite lookup_insert_ne; [by apply Hfound|].
      intros Heq. destruct Hfree as [->|Hnone]; [done|].
      rewrite Heq, (Hfound _ He Hne) in Hnone. done.
    + simpl. by rewrite lookup_insert_eq.
Qed.

Lemma Consistent_harvest targetPath imps m m' e :
  Consistent m -> harvestImports targetPath m imps = (m', e) -> Consistent m'.
Proof.
  revert m. induction imps as [|imp imps IH]; intros m Hm; [by intros [= <- <-]|].
  rewrite harvestImports_cons.
  destruct (decide (aliasOf imp = ".")); [by apply IH|].
  destruct (strconv_Unquote _) as [path|msg]; [|by intros [= <- <-]].
  destruct (HasSuffix _ _).
  { apply IH. destruct (decide _); [done|]. by apply (Consistent_ext m). }
  destruct (importsByPath m !! path) as [existing|] eqn:Hp.
  - destruct (decide _); [by apply IH|by intros [= <- <-]].
  - destruct (decide _) as [Hused|Hfree]; [by intros [= <- <-]|].
    apply IH, Consistent_register; [done..|].
    destruct (decide (aliasOf imp = "")) as [->|Hne]; [by left|]. right.
    destruct (importsByAlias m !! aliasOf imp) eqn:Ha; [|done].
    exfalso. apply Hfree. split; [done|by eexists].
Qed.

Lemma Consistent_new structName copyDocs output pkg :
  Consistent (newMaker structName copyDocs output pkg).
Proof.
  unfold Consistent, newMaker. cbn [imports importsByPath importsByAlias].
  split; [constructor|]. split; [by intros i ?%elem_of_nil|].
  split; [intros p e; by rewrite lookup_empty|].
  split; [intros p e; by rewrite lookup_empty|]. by intros e ?%elem_of_nil.
Qed.

Lemma Consistent_renderMethods fds m m' e :
  Consistent m -> renderMethods m fds = (m', e) -> Consistent m'.
Proof.
  intros Hm Hr. apply renderMethods_any in Hr as (done & xs & _ & _ & _ & _ & ->).
  by apply (Consistent_ext m).
Qed.

Lemma Consistent_resetNames m : Consistent m -> Consistent (resetNames m).
Proof.
  intros Hm. apply (Consistent_ext m); try done; unfold resetNames; by destruct (methods m).
Qed.

Lemma entries_elem m e : e ∈ entries m <-> Some e ∈ imports m.
Proof.
  unfold entries. rewrite list_elem_of_omap. split.
  - intros ([x|] & Hx & [= <-]). done.
  - intros He. by exists (Some e).
Qed.

Lemma Consistent_entries m :
  Consistent m ->
  imports m = map Some (entries m) /\
  NoDup (map Path (entries m)) /\
  (forall e1 e2, e1 ∈ entries m -> e2 ∈ entries m ->
     Alias e1 = Alias e2 -> Alias e1 <> "" -> e1 = e2) /\
  (forall p e, importsByPath m !! p = Some e <-> e ∈ entries m /\ Path e = p) /\
  (forall a e, a <> "" -> importsByAlias m !! a = Some e <-> e ∈ entries m /\ Alias e = a).
Proof.
  intros (Hnd & Hlist & Hpath & Halias & Hfound).
  assert (Hsome : imports m = map Some (entries m)).
  { unfold entries. clear -Hlist. induction (imports m) as [|i l IH]; [done|].
    destruct (Hlist i (list_elem_of_here _ _)) as (e & -> & _).
    cbn [omap list_omap id map]. f_equal. apply IH.
    intros j Hj. apply Hlist. by apply list_elem_of_further. }
  split; [exact Hsome|]. split; [|split; [|split]].
  - apply NoDup_fmap_2_strong.
    + intros e1 e2 H1%entries_elem H2%entries_elem Heq.
      destruct (Hlist _ H1) as (e1' & [= <-] & He1).
      destruct (Hlist _ H2) as (e2' & [= <-] & He2). congruence.
    + rewrite Hsome in Hnd. by apply NoDup_fmap_1 in Hnd.
  - intros e1 e2 H1%entries_elem H2%entries_elem Heq Hne.
    pose proof (Hfound _ H1 Hne) as F1.
    assert (Hne2 : Alias e2 <> "") by congruence.
    pose proof (Hfound _ H2 Hne2) as F2. congruence.
  - intros p e. rewrite entries_elem. split.
    + intros He. destruct (Hpath _ _ He). done.
    + intros [He <-]. destruct (Hlist _ He) as (e' & [= <-] & He'). done.
  - intros a e Hne. rewrite entries_elem. split.
    + intros He. destruct (Halias _ _ He). done.
    + intros [He <-]. by apply Hfound.
Qed.

(** X5.  The import registry of a run from a new Maker, however the run
    returns: the import list holds no nil, no two of its entries have the
    same path, no two of them the same alias unless it is empty, and the two
    indexes hold exactly the entries of the list, each under its path and,
    when it has an alias, under its alias. *)
Theorem import_registry_consistent (wd : result string) (target : string)
    (copyDocs : bool) (output pkg : string) (parsed : list (result File))
    (m' : Maker) (e : option string) :
  Main.parseAll wd (newMaker target copyDocs output pkg) parsed = Return m' e ->
  imports m' = map Some (entries m') /\
  NoDup (map Path (entries m')) /\
  (forall e1 e2, e1 ∈ entries m' -> e2 ∈ entries m' ->
     Alias e1 = Alias e2 -> Alias e1 <> "" -> e1 = e2) /\
  (forall p e, importsByPath m' !! p = Some e <-> e ∈ entries m' /\ Path e = p) /\
  (forall a e, a <> "" -> importsByAlias m' !! a = Some e <-> e ∈ entries m' /\ Alias e = a).
Proof.
  intros Hrun. apply Consistent_entries.
  eapply (parseAll_preserves Consistent); try exact Hrun.
  - apply Consistent_resetNames.
  - intros x f _. by apply Consistent_ext.
  - intros tp x imps x' e' Hx Hh. eapply Consistent_harvest; done.
  - intros x x' e' Hx Hr. eapply Consistent_renderMethods; done.
  - apply Consistent_new.
Qed.

(** X6.  The test for the target location is a test on the text: when the
    target location is any text followed by the path of an import, whether
    or not the path starts at a separator, a call leaves what the registry
    holds for that path as it was, however it returns. *)
Theorem self_import_is_textual (currentPath : string) (m : Maker) (a : result File)
    (m' : Maker) (e : option string) (pre path : string) :
  targetPathOf currentPath (Output m) = pre +:+ path ->
  ParseSource (ok currentPath) m a = Return m' e ->
  HasSuffix (targetPathOf currentPath (Output m)) path = true /\
  importsByPath m' !! path = importsByPath m !! path.
Proof.
  intros Htarget Hcall.
  assert (Hs : HasSuffix (targetPathOf currentPath (Output m)) path = true).
  { rewrite Htarget. apply HasSuffix_app. }
  split; [exact Hs|].
  eapply (ParseSource_preserves
            (fun x => importsByPath x !! path = importsByPath m !! path));
    try exact Hcall; try done.
  - intros x Hx. unfold resetNames. by destruct (methods x).
  - intros cwd x imps x' e' [= <-] Hx Hh. rewrite <- Hx.
    eapply harvestImports_self; done.
  - intros x x' e' Hx Hr.
    apply renderMethods_any in Hr as (done & xs & _ & _ & _ & _ & ->). done.
Qed.

Lemma Unaliased_register m path :
  Unaliased m -> Unaliased (register (mkImportedPkg "" path) m).
Proof.
  intros Hm p e. unfold register. cbn [importsByPath Path].
  destruct (decide (p = path)) as [->|Hne].
  - rewrite lookup_insert_eq. by intros [= <-].
  - rewrite lookup_insert_ne by done. apply Hm.
Qed.

(** X7.  Import errors come from aliases only: when no entry of the
    registry carries an alias, a list of imports that are dot imports or
    carry no alias, and whose literals unquote, goes through without error,
    and leaves a registry without aliases and the source package alias as it
    was. *)
Theorem unaliased_imports_never_fail (targetPath : string) (m : Maker)
    (imps : list ImportSpec) :
  Unaliased m ->
  Forall (fun imp => aliasOf imp = "." \/
                     aliasOf imp = "" /\ exists path, strconv_Unquote (impPathValue imp) = ok path)
         imps ->
  exists m',
    harvestImports targetPath m imps = (m', None) /\
    Unaliased m' /\
    PkgNameUsedInSourceStruct m' = PkgNameUsedInSourceStruct m.
Proof.
  intros Hm Himps. revert m Hm.
  induction Himps as [|imp imps Himp _ IH]; intros m Hm; [by exists m|].
  rewrite harvestImports_cons.
  destruct Himp as [Hdot|[Hnone [path Hpath]]].
  - rewrite decide_True by done. by apply IH.
  - rewrite decide_False by (rewrite Hnone; discriminate).
    rewrite Hpath, Hnone.
    destruct (HasSuffix _ _); [rewrite decide_True by done; by apply IH|].
    destruct (importsByPath m !! path) as [existing|] eqn:Hp.
    + rewrite decide_True by (by apply (Hm path)). by apply IH.
    + rewrite decide_False by (intros [Hne _]; by apply Hne).
      destruct (IH (register (mkImportedPkg "" path) m)) as (m' & H1 & H2 & H3).
      { by apply Unaliased_register. }
      exists m'. done.
Qed.

End Consistency.

(** [Sample.fileA], then [Sample.fileC], which stops the run on an alias
    conflict. *)
Lemma import_registry_consistent_witness :
  exists m' e,
    Main.parseAll (H := Unix.lib ok) (ok "/tmp") Sample.foo
      [ok Sample.fileA; ok Sample.fileC] = Return m' e /\
    imports m' = map Some (entries m') /\
    NoDup (map Path (entries m')).
Proof.
  edestruct (import_registry_consistent (H := Unix.lib ok) (ok "/tmp") "Foo" true "" ""
               [ok Sample.fileA; ok Sample.fileC]) as (H1 & H2 & _);
    [vm_compute; reflexivity|].
  eexists. eexists. split; [vm_compute; reflexivity|]. split; [exact H1|exact H2].
Defined.

(** The process is in [/x/myfmt] and the file imports [fmt]: the import is
    taken for the target location and is not registered. *)
Lemma self_import_is_textual_witness :
  exists m',
    ParseSource (H := Unix.lib ok) (ok "/x/myfmt") Sample.foo (ok Examples.fileE)
      = Return m' None /\
    HasSuffix (targetPathOf (H := Unix.lib ok) "/x/myfmt" (Output Sample.foo)) "fmt" = true /\
    importsByPath m' !! "fmt" = importsByPath Sample.foo !! "fmt" /\
    imports m' = [].
Proof.
  edestruct (fun m' e =>
               self_import_is_textual (H := Unix.lib ok) "/x/myfmt" Sample.foo
                 (ok Examples.fileE) m' e "/x/my" "fmt") as (H1 & H2);
    [vm_compute; reflexivity|vm_compute; reflexivity|].
  eexists. split; [vm_compute; reflexivity|].
  split; [exact H1|]. split; [exact H2|]. vm_compute; reflexivity.
Defined.

(** The imports of [Examples.fileF]: a dot import and two imports without
    alias. *)
Lemma unaliased_imports_never_fail_witness :
  exists m',
    harvestImports (H := Unix.lib ok) "/tmp" Sample.foo (Imports Examples.fileF)
      = (m', None) /\
    Unaliased m' /\
    PkgNameUsedInSourceStruct m' = PkgNameUsedInSourceStruct Sample.foo.
Proof.
  apply (unaliased_imports_never_fail (H := Unix.lib ok) "/tmp" Sample.foo
           (Imports Examples.fileF)).
  - intros p e He. vm_compute in He. discriminate.
  - apply Forall_cons_2; [left; reflexivity|].
    apply Forall_cons_2;
      [right; split; [reflexivity|]; eexists; vm_compute; reflexivity|].
    apply Forall_cons_2;
      [right; split; [reflexivity|]; eexists; vm_compute; reflexivity|].
    apply Forall_nil_2.
Defined.

(** ** The state only grows *)

Section Growth.

Context `{GoLib}.

Lemma harvestImports_aliases targetPath imps m m' e :
  harvestImports targetPath m imps = (m', e) ->
  forall a x, a <> "" -> importsByAlias m !! a = Some x -> importsByAlias m' !! a = Some x.
Proof.
  revert m. induction imps as [|imp imps IH]; intros m; [by intros [= <- <-]|].
  rewrite harvestImports_cons.
  destruct (decide (aliasOf imp = ".")); [by apply IH|].
  destruct (strconv_Unquote _) as [path|msg]; [|by intros [= <- <-]].
  destruct (HasSuffix _ _).
  { intros Hh a x Ha Hx. eapply IH; [exact Hh|done|]. by destruct (decide _). }
  destruct (importsByPath m !! path) as [existing|] eqn:Hp.
  - destruct (decide _); [by apply IH|by intros [= <- <-]].
  - destruct (decide _) as [Hused|Hfree]; [by intros [= <- <-]|].
    intros Hh a x Ha Hx. eapply IH; [exact Hh|done|].
    unfold register. cbn [importsByAlias Alias].
    rewrite lookup_insert_ne; [done|]. intros <-. apply Hfree.
    split; [done|by eexists].
Qed.

(** What a call or a run keeps of the Maker [m] it started from. *)
Lemma grows_refl m :
  StructName m = StructName m /\ CopyDocs m = CopyDocs m /\ Output m = Output m /\
  methods m `prefix_of` methods m /\ imports m `prefix_of` imports m /\
  funcDecks m `prefix_of` funcDecks m /\
  importsByPath m ⊆ importsByPath m /\
  (forall a x, a <> "" -> importsByAlias m !! a = Some x -> importsByAlias m !! a = Some x) /\
  methodNames (resetNames m) ⊆ methodNames m.
Proof.
  split_and!; try done. unfold resetNames. destruct (methods m); [|done].
  cbn [set_methodNames methodNames]. set_solver.
Qed.

(** X8.  The state is append-only.  Whatever the files and however the
    run returns, the target name, the doc switch and the output location are
    as they were; the methods, the imports and the collected declarations
    have only grown at their end; every path of the path index and every
    alias of the alias index still leads to the same entry; and the method
    names, once the reset of the first call is done, have only grown. *)
Theorem state_is_append_only (wd : result string) (m : Maker)
    (parsed : list (result File)) (m' : Maker) (e : option string) :
  Main.parseAll wd m parsed = Return m' e ->
  StructName m' = StructName m /\ CopyDocs m' = CopyDocs m /\ Output m' = Output m /\
  methods m `prefix_of` methods m' /\ imports m `prefix_of` imports m' /\
  funcDecks m `prefix_of` funcDecks m' /\
  importsByPath m ⊆ importsByPath m' /\
  (forall a x, a <> "" -> importsByAlias m !! a = Some x -> importsByAlias m' !! a = Some x) /\
  methodNames (resetNames m) ⊆ methodNames m'.
Proof.
  intros Hrun.
  eapply (parseAll_preserves
            (fun x =>
               StructName x = StructName m /\ CopyDocs x = CopyDocs m /\
               Output x = Output m /\
               methods m `prefix_of` methods x /\ imports m `prefix_of` imports x /\
               funcDecks m `prefix_of` funcDecks x /\
               importsByPath m ⊆ importsByPath x /\
               (forall a y, a <> "" -> importsByAlias m !! a = Some y ->
                            importsByAlias x !! a = Some y) /\
               methodNames (resetNames m) ⊆ methodNames x));
    try exact Hrun.
  - intros x (H1 & H2 & H3 & H4 & H5 & H6 & H7 & H8 & H9).
    unfold resetNames at 1 2 3 4 5 6 7 8 10.
    destruct (methods x) eqn:Hx.
    + split_and!; try done; cbn [set_methodNames methods methodNames].
      * by rewrite Hx.
      * apply prefix_nil_inv in H4. unfold resetNames. rewrite H4.
        cbn [set_methodNames methodNames]. done.
    + split_and!; try done. by rewrite Hx.
  - intros x f _ (H1 & H2 & H3 & H4 & H5 & H6 & H7 & H8 & H9).
    split_and!; try done. cbn [set_funcDecks funcDecks].
    by apply prefix_app_r.
  - intros tp x imps x' e' (H1 & H2 & H3 & H4 & H5 & H6 & H7 & H8 & H9) Hh.
    destruct (harvestImports_frame _ _ _ _ _ Hh) as (F1 & F2 & F3 & F4 & F5 & F6).
    destruct (harvestImports_appends _ _ _ _ _ Hh) as (added & Hadd & _).
    rewrite F1, F2, F3, F4, F5, F6, Hadd.
    split_and!; try done.
    + by apply prefix_app_r.
    + apply map_subseteq_spec. intros p y Hy.
      eapply harvestImports_monotone; [exact Hh|].
      by apply (proj1 (map_subseteq_spec _ _) H7).
    + intros a y Ha Hy. eapply harvestImports_aliases; [exact Hh|done|]. by apply H8.
  - intros x x' e' (H1 & H2 & H3 & H4 & H5 & H6 & H7 & H8 & H9) Hr.
    apply renderMethods_any in Hr as (done & xs & _ & _ & _ & _ & ->).
    unfold withMethods.
    cbn [StructName CopyDocs Output methods imports funcDecks importsByPath
         importsByAlias methodNames].
    split_and!; try done.
    + by apply prefix_app_r.
    + set_solver.
  - apply grows_refl.
Qed.

End Growth.

(** [Sample.fileC] and [Examples.fileD] after [Sample.fileA]; the first
    stops the run. *)
Lemma state_is_append_only_witness :
  exists m' e,
    Main.parseAll (H := Unix.lib ok) (ok "/tmp") Examples.afterA
      [ok Sample.fileC; ok Examples.fileD] = Return m' e /\
    methods Examples.afterA `prefix_of` methods m' /\
    imports Examples.afterA `prefix_of` imports m' /\
    funcDecks Examples.afterA `prefix_of` funcDecks m'.
Proof.
  edestruct (state_is_append_only (H := Unix.lib ok) (ok "/tmp") Examples.afterA
               [ok Sample.fileC; ok Examples.fileD])
    as (_ & _ & _ & H4 & H5 & H6 & _); [vm_compute; reflexivity|].
  eexists. eexists. split; [vm_compute; reflexivity|].
  split; [exact H4|]. split; [exact H5|exact H6].
Defined.

(** ** The methods of a run, however it ends *)

Lemma firstWins_subset seen l fd : fd ∈ firstWins seen l -> fd ∈ l.
Proof.
  revert seen. induction l as [|g l IH]; intros seen; [done|].
  cbn [firstWins]. destruct (decide _).
  - intros Hin. apply list_elem_of_further. by eapply IH.
  - intros [->|Hin]%elem_of_cons; [apply list_elem_of_here|].
    apply list_elem_of_further. by eapply IH.
Qed.

Section Records.

Context `{GoLib}.

Lemma parseAll_app wd m l1 l2 :
  Main.parseAll wd m (l1 ++ l2) =
  match Main.parseAll wd m l1 with
  | Return m' None => Main.parseAll wd m' l2
  | o => o
  end.
Proof.
  revert m. induction l1 as [|a l1 IH]; intros m; [done|].
  cbn [app Main.parseAll].
  destruct (ParseSource wd m a) as [m1 [msg|]|]; [done| |done]. apply IH.
Qed.

Lemma ParseSource_failed_parse wd m msg m' :
  ParseSource wd m (failed msg) = Return m' None -> False.
Proof. unfold ParseSource. by destruct wd. Qed.

(** A run either goes through all its files, which have all parsed, or
    stops at the first call that returns an error. *)
Lemma parseAll_split wd m parsed m' e :
  Main.parseAll wd m parsed = Return m' e ->
  (exists files, parsed = map ok files /\ e = None) \/
  (exists files a post m1 msg,
     parsed = map ok files ++ a :: post /\
     Main.parseAll wd m (map ok files) = Return m1 None /\
     ParseSource wd m1 a = Return m' (Some msg) /\ e = Some msg).
Proof.
  revert m. induction parsed as [|a parsed IH]; intros m.
  - intros [= <- <-]. left. by exists [].
  - cbn [Main.parseAll].
    destruct (ParseSource wd m a) as [m1 [msg|]|] eqn:Hcall; [| |done].
    + intros [= <- <-]. right. exists [], a, parsed, m, msg. done.
    + destruct a as [f|msg]; [|by apply ParseSource_failed_parse in Hcall].
      intros Hrest. destruct (IH _ Hrest) as [(files & -> & ->)|
        (files & b & post & m2 & msg & -> & Hpre & Hb & ->)].
      * left. by exists (f :: files).
      * right. exists (f :: files), b, post, m2, msg. split; [done|].
        split; [|done]. cbn [map Main.parseAll]. by rewrite Hcall.
Qed.

Lemma declared_ok target files :
  declared target (map ok files)
  = flat_map (fun f => omap (collectable target) (Decls f)) files.
Proof.
  unfold declared. induction files as [|f files IH]; [done|].
  cbn [map flat_map]. by rewrite IH.
Qed.

Lemma declared_app target l1 l2 :
  declared target (l1 ++ l2) = declared target l1 ++ declared target l2.
Proof. unfold declared. apply flat_map_app. Qed.

(** The loop over the collected declarations renders an initial segment of
    the first occurrences of new names. *)
Lemma renderMethods_prefix fds m m' e :
  renderMethods m fds = (m', e) ->
  exists done xs,
    Forall2 (fun fd x => renderMethod m fd = ok x) done xs /\
    done `prefix_of` firstWins (methodNames m) fds /\
    (e = None -> done = firstWins (methodNames m) fds) /\
    m' = withMethods (methods m ++ xs) (methodNames m ∪ names done) m.
Proof.
  revert m. induction fds as [|fd fds IH]; intros m Hr.
  - injection Hr as <- <-. exists [], []. split_and!; try done.
    destruct m; unfold withMethods, names; simpl. rewrite app_nil_r. f_equal. set_solver.
  - rewrite renderMethods_cons in Hr. cbn [firstWins].
    destruct (decide (fdName fd ∈ methodNames m)) as [Hin|Hnin]; [by apply IH|].
    destruct (renderMethod m fd) as [x|msg] eqn:Hx.
    + destruct (IH _ Hr) as (done & xs & H1 & H2 & H3 & H4).
      exists (fd :: done), (x :: xs). split_and!.
      * constructor; [done|]. eapply Forall2_impl; [exact H1|].
        intros fd' x' <-. apply renderMethod_ext; done.
      * by apply prefix_cons.
      * intros He. f_equal. by apply H3.
      * rewrite H4. unfold withMethods, addMethod; simpl.
        rewrite names_cons, <- app_assoc. f_equal. set_solver.
    + injection Hr as <- <-. exists [], []. split_and!; try done.
      * apply prefix_nil.
      * destruct m; unfold withMethods, names; simpl. rewrite app_nil_r. f_equal. set_solver.
Qed.

(** A call that returns an error on a settled Maker has rendered an
    initial segment of the first occurrences of the file. *)
Lemma ParseSource_failed_prefix wd m seen a m' msg :
  Settled m seen ->
  ParseSource wd m a = Return m' (Some msg) ->
  CopyDocs m' = CopyDocs m /\
  exists fds,
    Forall2 (recordOf (CopyDocs m)) fds (methods m') /\
    fds `prefix_of` firstWins ∅ (seen ++ declared (StructName m) [a]).
Proof.
  intros Hs Hcall. pose proof Hs as (Hnames & Hrec & Hheld).
  pose proof (Settled_resetNames _ _ Hs) as Hreset.
  assert (Hseen : firstWins ∅ seen `prefix_of`
                  firstWins ∅ (seen ++ declared (StructName m) [a])).
  { rewrite firstWins_app. by apply prefix_app_r. }
  destruct wd as [cwd|err]; [|injection Hcall as <- _; split; [done|by exists (firstWins ∅ seen)]].
  destruct a as [f|err].
  2:{ unfold ParseSource in Hcall. injection Hcall as <- _. rewrite Hreset.
      split; [done|by exists (firstWins ∅ seen)]. }
  rewrite ParseSource_parsed in Hcall.
  destruct (existsb _ _); [done|].
  destruct (hasCollectable _ f); [|done].
  unfold collected in Hcall. rewrite Hreset in Hcall.
  destruct (harvestImports _ _ _) as [mi [ei|]] eqn:Hh.
  - injection Hcall as <- _.
    destruct (harvestImports_frame _ _ _ _ _ Hh) as (_ & F2 & F3 & _).
    rewrite F3. split; [done|]. by exists (firstWins ∅ seen).
  - destruct (renderMethods mi (funcDecks mi)) as [mr er] eqn:Hr.
    injection Hcall as <- ->.
    destruct (harvestImports_frame _ _ _ _ _ Hh) as (F1 & F2 & F3 & F4 & F5 & _).
    cbn [set_funcDecks StructName CopyDocs methods methodNames funcDecks] in *.
    apply renderMethods_prefix in Hr as (done & xs & H1 & H2 & _ & ->).
    cbn [withMethods CopyDocs methods]. split; [done|].
    exists (firstWins ∅ seen ++ done). split.
    + rewrite F3. apply Forall2_app; [done|].
      eapply Forall2_impl; [exact H1|]. intros fd x Hx. by exists mi.
    + unfold declared. cbn [flat_map]. rewrite app_nil_r, firstWins_app.
      apply prefix_app.
      rewrite F4, F5, Hnames, firstWins_app in H2.
      rewrite firstWins_seen, app_nil_l in H2 by (by rewrite <- Hnames).
      assert (Hu : names seen ∪ names (funcDecks m) = names seen).
      { apply set_eq. intros n. rewrite elem_of_union, !elem_of_names. split; [|by left].
        intros [Hn|(fd & Hfd & <-)]; [done|].
        rewrite Forall_forall in Hheld. apply elem_of_names. rewrite <- Hnames.
        by apply Hheld. }
      rewrite Hu in H2. unfold pending in H2.
      rewrite Hnames, firstWins_filter in H2 by done.
      by rewrite (left_id_L ∅ (∪)).
Qed.

(** The methods of a run from a new Maker: the records of an initial
    segment of the first occurrences, of all of them when the run returns no
    error. *)
Lemma parseAll_records wd target copyDocs output pkg parsed m' e :
  Main.parseAll wd (newMaker target copyDocs output pkg) parsed = Return m' e ->
  exists fds,
    Forall2 (recordOf copyDocs) fds (methods m') /\
    fds `prefix_of` firstWins ∅ (declared target parsed) /\
    (e = None -> fds = firstWins ∅ (declared target parsed)).
Proof.
  intros Hrun. pose proof (parseAll_split _ _ _ _ _ Hrun) as [(files & -> & ->)|
    (files & a & post & m1 & msg & -> & Hpre & Hcall & ->)].
  - apply (parseAll_settled _ _ _ []) in Hrun as ((_ & Hrec & _) & _ & Hdocs & _);
      [|apply Settled_new].
    cbn [app newMaker StructName CopyDocs] in *. rewrite Hdocs in Hrec.
    rewrite declared_ok. eexists. split; [exact Hrec|]. done.
  - apply (parseAll_settled _ _ _ []) in Hpre as (Hs & Hname & Hdocs & _);
      [|apply Settled_new].
    cbn [app newMaker StructName CopyDocs] in *.
    destruct (ParseSource_failed_prefix _ _ _ _ _ _ Hs Hcall) as (_ & fds & H1 & H2).
    rewrite Hdocs in H1. rewrite Hname in H2.
    exists fds. split; [done|]. split; [|done].
    rewrite !declared_app, declared_ok.
    change (a :: post) with ([a] ++ post). rewrite declared_app, !app_assoc.
    rewrite (firstWins_app _ (_ ++ _)). by apply prefix_app_r.
Qed.

(** X9.  However a run from a new Maker returns, on an error included, its
    methods are the records, in order, of an initial segment of the first
    occurrences of the collectable declarations of its files: no method is
    made up, none is rendered twice, and none is rendered before an earlier
    one.  Without error the segment is the whole. *)
Theorem methods_follow_first_occurrences (wd : result string) (target : string)
    (copyDocs : bool) (output pkg : string) (parsed : list (result File))
    (m' : Maker) (e : option string) :
  Main.parseAll wd (newMaker target copyDocs output pkg) parsed = Return m' e ->
  exists fds,
    Forall2 (recordOf copyDocs) fds (methods m') /\
    fds `prefix_of` firstWins ∅ (declared target parsed) /\
    (e = None -> fds = firstWins ∅ (declared target parsed)) /\
    NoDup (map fdName fds) /\
    Forall (fun fd => fd ∈ declared target parsed) fds.
Proof.
  intros Hrun. destruct (parseAll_records _ _ _ _ _ _ _ _ Hrun) as (fds & H1 & H2 & H3).
  exists fds. split_and!; try done.
  - destruct H2 as [k Hk].
    destruct (firstWins_NoDup ∅ (declared target parsed)) as [Hnd _].
    rewrite Hk, map_app in Hnd. by apply NoDup_app in Hnd as [? _].
  - apply Forall_forall. intros fd Hfd. apply (firstWins_subset ∅).
    destruct H2 as [k ->]. apply elem_of_app. by left.
Qed.


End Records.

(** [Sample.fileA], then [Sample.fileC], which stops the run: [Get] has
    been rendered. *)
Lemma methods_follow_first_occurrences_witness :
  exists m' msg fds,
    Main.parseAll (H := Unix.lib ok) (ok "/tmp") Sample.foo
      [ok Sample.fileA; ok Sample.fileC] = Return m' (Some msg) /\
    Forall2 (recordOf (H := Unix.lib ok) true) fds (methods m') /\
    NoDup (map fdName fds).
Proof.
  edestruct (methods_follow_first_occurrences (H := Unix.lib ok) (ok "/tmp") "Foo" true
               "" "" [ok Sample.fileA; ok Sample.fileC])
    as (fds & H1 & _ & _ & H4 & _); [vm_compute; reflexivity|].
  eexists. eexists. exists fds. split; [vm_compute; reflexivity|].
  split; [exact H1|exact H4].
Defined.


(** ** Calls after an error *)

Section Afterwards.

Context `{GoLib}.

Lemma Rendered_resetNames m fds : Rendered m fds -> resetNames m = m.
Proof.
  intros (_ & Hnames & Hrec & _). apply resetNames_fixed. intros Hnil.
  rewrite Hnil in Hrec. apply Forall2_nil_inv_r in Hrec as ->. by rewrite Hnames.
Qed.

Lemma Rendered_renderMethods m fds m' e :
  Rendered m fds ->
  renderMethods m (funcDecks m) = (m', e) ->
  exists done, Rendered m' (fds ++ done).
Proof.
  intros (Hnd & Hnames & Hrec & Hheld) Hr.
  apply renderMethods_any in Hr as (done & xs & H1 & H2 & H3 & H4 & ->).
  exists done. unfold Rendered, withMethods. cbn [CopyDocs methods methodNames funcDecks].
  split_and!.
  - rewrite map_app. apply NoDup_app. split; [done|]. split; [|done].
    intros n Hn Hn'. apply list_elem_of_fmap in Hn' as (fd & -> & Hfd).
    rewrite Forall_forall in H4. apply (H4 _ Hfd). rewrite Hnames.
    unfold names. by apply elem_of_list_to_set.
  - by rewrite names_app, Hnames.
  - apply Forall2_app; [done|]. eapply Forall2_impl; [exact H1|].
    intros fd x Hx. by exists m.
  - apply Forall_app. done.
Qed.

(** X11.  Method names stay unique whatever the caller does: a Maker whose
    methods are the records of declarations with different names, these
    names being its method names, is such a Maker again after any call,
    a call that returned an error included, and again, when the caller goes
    on, after the next.  A new Maker is one. *)
Theorem method_names_stay_unique (wd : result string) (m : Maker) (a : result File)
    (m' : Maker) (e : option string) (fds : list FuncDecl) :
  Rendered m fds ->
  ParseSource wd m a = Return m' e ->
  (exists done, Rendered m' (fds ++ done)) /\
  length (methods m') = size (methodNames m') /\
  forall structName copyDocs output pkg,
    Rendered (newMaker structName copyDocs output pkg) [].
Proof.
  intros Hm Hcall.
  assert (Hdone : exists done, Rendered m' (fds ++ done)).
  { eapply (ParseSource_preserves (fun x => exists done, Rendered x (fds ++ done)));
      try exact Hcall.
    - intros x [done Hx]. exists done. by rewrite (Rendered_resetNames _ _ Hx).
    - intros x f _ (done & Hnd & Hnames & Hrec & Hheld). exists done.
      unfold Rendered. cbn [set_funcDecks CopyDocs methods methodNames funcDecks].
      split_and!; try done.
      eapply Forall_impl; [exact Hheld|]. intros fd Hfd. apply elem_of_app. by left.
    - intros cwd x imps x' e' _ (done & Hnd & Hnames & Hrec & Hheld) Hh.
      destruct (harvestImports_frame _ _ _ _ _ Hh) as (_ & F2 & F3 & F4 & F5 & _).
      exists done. unfold Rendered. by rewrite F2, F3, F4, F5.
    - intros x x' e' [done Hx] Hr.
      destruct (Rendered_renderMethods _ _ _ _ Hx Hr) as [done' Hx'].
      exists (done ++ done'). by rewrite app_assoc.
    - exists []. by rewrite app_nil_r. }
  split; [exact Hdone|]. split.
  - destruct Hdone as (done & Hnd & Hnames & Hrec & _).
    rewrite <- (Forall2_length _ _ _ Hrec), Hnames. unfold names.
    rewrite size_list_to_set by done. by rewrite length_map.
  - intros structName copyDocs output pkg. unfold Rendered, newMaker. simpl.
    split_and!; by try constructor.
Qed.

(** The declarations a call on a parsed file leaves in [m.funcDecks]:
    those held before, then the pending ones of the file, however the call
    returns. *)
Lemma ParseSource_funcDecks currentPath m f m' e :
  ParseSource (ok currentPath) m (ok f) = Return m' e ->
  funcDecks m' = funcDecks m ++ pending (resetNames m) (Decls f) /\
  StructName m' = StructName m /\
  methodNames (resetNames m) ⊆ methodNames m' /\
  (methods m' = [] -> methodNames m' = ∅).
Proof.
  assert (Hfd : funcDecks (resetNames m) = funcDecks m).
  { unfold resetNames. by destruct (methods m). }
  assert (Hempty : methods (resetNames m) = [] -> methodNames (resetNames m) = ∅).
  { unfold resetNames. destruct (methods m) eqn:Hm; [done|]. intros Hn. congruence. }
  rewrite ParseSource_parsed.
  destruct (existsb _ _); [done|].
  destruct (hasCollectable _ f) eqn:Hc.
  - unfold collected.
    destruct (harvestImports _ _ _) as [mi ei] eqn:Hh.
    destruct (harvestImports_frame _ _ _ _ _ Hh) as (F1 & _ & F3 & F4 & F5 & _).
    cbn [set_funcDecks StructName methods methodNames funcDecks] in *.
    rewrite resetNames_StructName in F1.
    destruct ei as [msg|].
    + intros [= <- <-]. rewrite F1, F3, F4, F5, Hfd. done.
    + destruct (renderMethods mi (funcDecks mi)) as [mr er] eqn:Hr.
      intros [= <- <-].
      apply renderMethods_any in Hr as (done & xs & H1 & _ & _ & _ & ->).
      cbn [withMethods StructName methods methodNames funcDecks].
      rewrite F1, F3, F4, F5, Hfd. split_and!; try done; [set_solver|].
      intros [Hnil ->]%app_eq_nil. apply Forall2_nil_inv_r in H1 as ->.
      rewrite (Hempty Hnil). unfold names. set_solver.
  - intros [= <- <-]. rewrite (no_collectable_pending (resetNames m) f), app_nil_r.
    + rewrite resetNames_StructName. done.
    + by rewrite resetNames_StructName.
Qed.

(** X12.  A call is not rolled back.  The pending declarations of its file
    stay in [m.funcDecks] however it returns, and the next call that goes
    through its loops without error renders them: the names of all the
    collectable declarations of the first file are then among the method
    names, whether the first call had failed or not. *)
Theorem failed_call_is_not_rolled_back (cwd1 cwd2 : string) (m : Maker)
    (f1 f2 : File) (m1 m2 : Maker) (e1 : option string) :
  ParseSource (ok cwd1) m (ok f1) = Return m1 e1 ->
  ParseSource (ok cwd2) m1 (ok f2) = Return m2 None ->
  hasCollectable (StructName m) f2 = true ->
  funcDecks m1 = funcDecks m ++ pending (resetNames m) (Decls f1) /\
  names (omap (collectable (StructName m)) (Decls f1)) ⊆ methodNames m2.
Proof.
  intros Hcall1 Hcall2 Hc2.
  destruct (ParseSource_funcDecks _ _ _ _ _ Hcall1) as (Hfd1 & Hs1 & Hn1 & He1).
  split; [exact Hfd1|].
  pose proof (resetNames_fixed _ He1) as Hreset1.
  rewrite ParseSource_parsed in Hcall2.
  destruct (existsb _ _); [done|].
  rewrite Hs1, Hc2 in Hcall2. unfold collected in Hcall2. rewrite Hreset1 in Hcall2.
  destruct (harvestImports _ _ _) as [mi [ei|]] eqn:Hh; [done|].
  destruct (renderMethods mi (funcDecks mi)) as [mr er] eqn:Hr.
  injection Hcall2 as -> ->.
  destruct (harvestImports_frame _ _ _ _ _ Hh) as (_ & _ & _ & F4 & F5 & _).
  cbn [set_funcDecks methodNames funcDecks] in *.
  apply renderMethods_ok in Hr as (xs & _ & ->).
  cbn [withMethods methodNames]. rewrite F4, F5, Hfd1, !names_app.
  pose proof (pending_names (resetNames m) (Decls f1)) as Hp.
  rewrite resetNames_StructName in Hp.
  set_solver.
Qed.

End Afterwards.

(** [Sample.fileA] on a new Maker. *)
Lemma method_names_stay_unique_witness :
  exists m',
    ParseSource (H := Unix.lib ok) (ok "/tmp") Sample.foo (ok Sample.fileA)
      = Return m' None /\
    length (methods m') = size (methodNames m').
Proof.
  edestruct (fun m' e =>
               method_names_stay_unique (H := Unix.lib ok) (ok "/tmp") Sample.foo
                 (ok Sample.fileA) m' e []) as (_ & H2 & _);
    [|vm_compute; reflexivity|].
  - unfold Rendered. split; [constructor|]. split; [reflexivity|].
    split; constructor.
  - eexists. split; [vm_compute; reflexivity|]. exact H2.
Defined.

(** After [Sample.fileA], the call on [Examples.fileG] fails on its alias;
    the call on [Sample.fileA] that follows renders the method [Put] of
    [Examples.fileG]. *)
Lemma failed_call_is_not_rolled_back_witness :
  exists m1 m2,
    ParseSource (H := Unix.lib ok) (ok "/tmp") Examples.afterA (ok Examples.fileG)
      = Return m1 (Some "Import alias w already in use") /\
    ParseSource (H := Unix.lib ok) (ok "/tmp") m1 (ok Sample.fileA) = Return m2 None /\
    names (omap (collectable (H := Unix.lib ok) (StructName Examples.afterA))
             (Decls Examples.fileG)) ⊆ methodNames m2 /\
    map Code (methods m2) = ["Get() (w.Widget)"; "Put() (int)"].
Proof.
  edestruct (failed_call_is_not_rolled_back (H := Unix.lib ok) "/tmp" "/tmp"
               Examples.afterA Examples.fileG Sample.fileA) as (_ & H2);
    [vm_compute; reflexivity|vm_compute; reflexivity|vm_compute; reflexivity|].
  eexists. eexists. split; [vm_compute; reflexivity|].
  split; [vm_compute; reflexivity|]. split; [exact H2|]. vm_compute; reflexivity.
Defined.

(** ** How a run ends *)

Section Endings.

Context `{GoLib}.

(** X13.  The first call that does not return nil ends the run: its error
    is the fatal message, or its panic the crash, and the files after it are
    not looked at. *)
Theorem first_error_ends_the_run (wd : result string) (args : Main.cmdlineArgs)
    (pre : list (result File)) (a : result File) (post : list (result File))
    (m1 : Maker) :
  Main.parseAll wd
    (newMaker (Main.StructType args) (Main.CopyDocs args) (Main.Output args)
       (Main.PkgName args)) pre = Return m1 None ->
  (forall m2 msg, ParseSource wd m1 a = Return m2 (Some msg) ->
     Main.runParsed wd args (pre ++ a :: post) = Main.Fatal msg) /\
  (ParseSource wd m1 a = Panic ->
     Main.runParsed wd args (pre ++ a :: post) = Main.Crashed).
Proof.
  intros Hpre. split.
  - intros m2 msg Hcall. unfold Main.runParsed.
    rewrite parseAll_app, Hpre. cbn [Main.parseAll]. by rewrite Hcall.
  - intros Hcall. unfold Main.runParsed.
    rewrite parseAll_app, Hpre. cbn [Main.parseAll]. by rewrite Hcall.
Qed.

Lemma nilDeref_spec target d :
  nilDeref target d = true <-> target = "" /\ (getReceiverTypeName d).2 = None.
Proof.
  unfold nilDeref. rewrite andb_true_iff, bool_decide_eq_true.
  destruct d as [fd| |]; [|cbn; tauto..].
  rewrite getReceiverTypeName_receiverType, bool_decide_eq_true.
  destruct (receiverType fd); cbn; intuition congruence.
Qed.

Lemma ParseSource_Panic wd m a :
  ParseSource wd m a = Panic <->
  StructName m = "" /\
  exists currentPath f d,
    wd = ok currentPath /\ a = ok f /\ d ∈ Decls f /\
    (getReceiverTypeName d).2 = None.
Proof.
  split.
  - destruct wd as [cwd|msg]; [|done]. destruct a as [f|msg]; [|done].
    rewrite ParseSource_parsed.
    destruct (existsb _ _) eqn:Hx.
    + intros _. apply existsb_exists in Hx as (d & Hd & Hnil).
      apply nilDeref_spec in Hnil as [Hempty Hnone].
      split; [done|]. exists cwd, f, d. split_and!; try done.
      by apply list_elem_of_In.
    + destruct (hasCollectable _ _); [|done].
      destruct (harvestImports _ _ _) as [mi [ei|]]; [done|].
      by destruct (renderMethods _ _).
  - intros (Hempty & cwd & f & d & -> & -> & Hd & Hnone).
    rewrite ParseSource_parsed.
    assert (Hx : existsb (nilDeref (StructName m)) (Decls f) = true).
    { apply existsb_exists. exists d. split; [by apply list_elem_of_In|].
      by apply nilDeref_spec. }
    by rewrite Hx.
Qed.

Lemma ParseSource_StructName wd m a m' e :
  ParseSource wd m a = Return m' e -> StructName m' = StructName m.
Proof.
  intros Hcall.
  eapply (ParseSource_preserves (fun x => StructName x = StructName m));
    try exact Hcall; try done.
  - intros x Hx. by rewrite resetNames_StructName.
  - intros cwd x imps x' e' _ Hx Hh.
    by destruct (harvestImports_frame _ _ _ _ _ Hh) as (-> & _).
  - intros x x' e' Hx Hr.
    by apply renderMethods_any in Hr as (done & xs & _ & _ & _ & _ & ->).
Qed.

Lemma parseAll_Panic wd m parsed :
  Main.parseAll wd m parsed = Panic -> StructName m = "".
Proof.
  revert m. induction parsed as [|a parsed IH]; intros m; [done|].
  cbn [Main.parseAll].
  destruct (ParseSource wd m a) as [m1 [msg|]|] eqn:Hcall; [done| |].
  - intros Hrest. rewrite <- (ParseSource_StructName _ _ _ _ _ Hcall). by apply IH.
  - intros _. by apply ParseSource_Panic in Hcall as [? _].
Qed.

(** X14.  A call panics in one case only: the target type name is empty
    and the file, which has parsed in a known working directory, holds a
    declaration for which [getReceiverTypeName] returns nil, that is, any
    declaration but a method whose receiver type has a name.  So the command
    crashes only when it was given an empty type name. *)
Theorem panic_condition (wd : result string) (m : Maker) (a : result File) :
  (ParseSource wd m a = Panic <->
   StructName m = "" /\
   exists currentPath f d,
     wd = ok currentPath /\ a = ok f /\ d ∈ Decls f /\
     (getReceiverTypeName d).2 = None) /\
  (forall args parsed,
     Main.runParsed wd args parsed = Main.Crashed -> Main.StructType args = "").
Proof.
  split; [apply ParseSource_Panic|].
  intros args parsed. unfold Main.runParsed.
  destruct (Main.parseAll wd _ parsed) as [mr [msg|]|] eqn:Hrun.
  - done.
  - by destruct (snd _).
  - intros _. by apply parseAll_Panic in Hrun.
Qed.

End Endings.

(** [Sample.fileB] after [Sample.fileA]; the third file, which does not
    parse, is not reached. *)
Lemma first_error_ends_the_run_witness :
  Main.runParsed (H := Unix.lib ok) (ok "/tmp") (Main.mkArgs "Foo" "FooIface" "bar" true "")
    [ok Sample.fileA; ok Sample.fileB; failed "c.go:1:1: expected 'package', found 'EOF'"]
  = Main.Fatal ("Package " +:+ DQ +:+ "example.com/widgets" +:+ DQ +:+
                " imported multiple times with different aliases: w, v").
Proof.
  refine (proj1 (first_error_ends_the_run (H := Unix.lib ok) (ok "/tmp")
                   (Main.mkArgs "Foo" "FooIface" "bar" true "")
                   [ok Sample.fileA] (ok Sample.fileB)
                   [failed "c.go:1:1: expected 'package', found 'EOF'"] _ _) _ _ _);
    vm_compute; reflexivity.
Defined.

(** ** The files of the command *)

Section Files.

Context `{GoLib} `{Cmd.FileSystem}.

Lemma goFiles_filter f dirFiles :
  Cmd.goFiles f dirFiles =
  map (fun fi => Cmd.filepath_Join f (Cmd.Name fi))
    (List.filter (fun fi => negb (Cmd.IsDir fi) && HasSuffix (Cmd.Name fi) ".go") dirFiles).
Proof.
  unfold Cmd.goFiles.
  enough (Hgen : forall acc,
            fold_left
              (fun dirFileNames fi =>
                 if negb (Cmd.IsDir fi) && HasSuffix (Cmd.Name fi) ".go"
                 then dirFileNames ++ [Cmd.filepath_Join f (Cmd.Name fi)]
                 else dirFileNames) dirFiles acc
            = acc ++ map (fun fi => Cmd.filepath_Join f (Cmd.Name fi))
                       (List.filter
                          (fun fi => negb (Cmd.IsDir fi) && HasSuffix (Cmd.Name fi) ".go")
                          dirFiles)) by apply (Hgen []).
  induction dirFiles as [|fi dirFiles IH]; intros acc; cbn [fold_left List.filter].
  - by rewrite app_nil_r.
  - rewrite IH. destruct (negb _ && _); [|done].
    cbn [map]. by rewrite <- app_assoc.
Qed.

(** X15.  A directory argument stands for its entries that are not
    directories and whose name ends in [.go], each joined to the directory,
    in increasing order, which is their only arrangement in increasing
    order, whatever the order in which the directory lists them;
    subdirectories are not entered and other files are left out. *)
Theorem directory_listing (f : string) (dirFiles : list Cmd.FileInfo)
    (dirFileNames : list string) :
  Cmd.Readdir f = ok dirFiles ->
  Cmd.listDir f = ok dirFileNames ->
  StronglySorted String.le dirFileNames /\
  dirFileNames ≡ₚ
    map (fun fi => Cmd.filepath_Join f (Cmd.Name fi))
      (List.filter (fun fi => negb (Cmd.IsDir fi) && HasSuffix (Cmd.Name fi) ".go")
         dirFiles) /\
  (forall l, StronglySorted String.le l -> l ≡ₚ dirFileNames -> l = dirFileNames).
Proof.
  intros Hread. unfold Cmd.listDir. rewrite Hread.
  destruct (Cmd.os_Open f); [done|]. destruct (Cmd.Close f); [done|].
  intros [= <-]. unfold Cmd.sort_Strings. split_and!.
  - apply StronglySorted_merge_sort; apply _.
  - rewrite merge_sort_Permutation. by rewrite goFiles_filter.
  - intros l Hl Hperm. eapply (StronglySorted_unique String.le); [done| |done].
    apply StronglySorted_merge_sort; apply _.
Qed.

Lemma expand_acc acc files :
  Cmd.expand acc files =
  match Cmd.expand [] files with
  | ok l => ok (acc ++ l)
  | failed e => failed e
  end.
Proof.
  revert acc. induction files as [|f files IH]; intros acc; cbn [Cmd.expand].
  - by rewrite app_nil_r.
  - destruct (Cmd.os_Stat f) as [fi|msg]; [|done].
    destruct (Cmd.IsDir fi).
    + destruct (Cmd.listDir f) as [names|msg]; [|done].
      rewrite (IH (acc ++ names)), (IH ([] ++ names)).
      destruct (Cmd.expand [] files); [|done]. by rewrite <- app_assoc.
    + rewrite (IH (acc ++ [f])), (IH ([] ++ [f])).
      destruct (Cmd.expand [] files); [|done]. by rewrite <- app_assoc.
Qed.

(** X16.  The files of a run are those of its arguments, argument after
    argument in the order given: an argument that is not a directory stands
    for itself, whatever its name, and a directory for its listing.  Nothing
    is sorted across arguments and nothing is dropped when it comes twice. *)
Theorem arguments_in_order (files allFiles : list string) :
  Cmd.expand [] files = ok allFiles ->
  exists parts,
    allFiles = concat parts /\
    Forall2
      (fun f part =>
         exists fi, Cmd.os_Stat f = ok fi /\
           if Cmd.IsDir fi then Cmd.listDir f = ok part else part = [f])
      files parts.
Proof.
  revert allFiles. induction files as [|f files IH]; intros allFiles.
  - intros [= <-]. exists []. by split.
  - cbn [Cmd.expand].
    destruct (Cmd.os_Stat f) as [fi|msg] eqn:Hstat; [|done].
    destruct (Cmd.IsDir fi) eqn:Hdir.
    + destruct (Cmd.listDir f) as [names|msg] eqn:Hlist; [|done].
      rewrite expand_acc.
      destruct (Cmd.expand [] files) as [l|] eqn:Hrest; [|done].
      intros [= <-]. destruct (IH _ eq_refl) as (parts & -> & Hparts).
      exists (names :: parts). split; [done|]. constructor; [|done].
      exists fi. by rewrite Hdir.
    + rewrite expand_acc.
      destruct (Cmd.expand [] files) as [l|] eqn:Hrest; [|done].
      intros [= <-]. destruct (IH _ eq_refl) as (parts & -> & Hparts).
      exists ([f] :: parts). split; [done|]. constructor; [|done].
      exists fi. by rewrite Hdir.
Qed.

Lemma parseFiles_parseAll parse wd m allFiles srcs :
  Forall2 (fun f src => Cmd.ioutil_ReadFile f = ok src) allFiles srcs ->
  Cmd.parseFiles parse wd m allFiles =
  Main.parseAll wd m
    (map (fun p => parse p.1 p.2) (zip (map Cmd.filepath_Base allFiles) srcs)).
Proof.
  intros Hread. revert m.
  induction Hread as [|f src allFiles srcs Hf _ IH]; intros m; [done|].
  cbn [Cmd.parseFiles map zip zip_with Main.parseAll fst snd]. rewrite Hf.
  destruct (ParseSource _ _ _) as [m1 [msg|]|]; [done| |done]. apply IH.
Qed.

(** X17.  When the arguments expand and every file reads, the command is
    the run of the engine on the files in that order, each parsed under its
    base name, followed by the output: what the engine renders goes to
    standard output with a line feed when no output location was given, and
    otherwise unchanged into that file; an error of the run, or of the
    writing, is fatal. *)
Theorem run_reads_then_parses (parse : string -> string -> result File)
    (wd : result string) (args : Main.cmdlineArgs) (files allFiles srcs : list string) :
  Cmd.expand [] files = ok allFiles ->
  Forall2 (fun f src => Cmd.ioutil_ReadFile f = ok src) allFiles srcs ->
  Cmd.run parse wd args files =
  match Main.run parse wd args (zip (map Cmd.filepath_Base allFiles) srcs) with
  | Main.Written result =>
      if decide (Main.Output args = "") then Cmd.Printed (result +:+ LF)
      else
        match Cmd.ioutil_WriteFile (Main.Output args) result with
        | Some e => Cmd.Fatal ("ioutil.WriteFile(args.Output, result, 0644): " +:+ e)
        | None => Cmd.Saved (Main.Output args) result
        end
  | Main.Fatal e => Cmd.Fatal e
  | Main.Crashed => Cmd.Crashed
  end.
Proof.
  intros Hexpand Hread. unfold Cmd.run, Main.run, Main.runParsed.
  rewrite Hexpand, (parseFiles_parseAll _ _ _ _ _ Hread).
  destruct (Main.parseAll _ _ _) as [m [msg|]|]; [done| |done].
  by destruct (snd _).
Qed.

(** X18.  A file that cannot be read is fatal only if the files before it
    went through: the run has then parsed them all without error, and ends
    with the error of the reading; the files after it are not read. *)
Theorem unreadable_file_is_fatal (parse : string -> string -> result File)
    (wd : result string) (m : Maker) (pre : list string) (f : string)
    (post : list string) (srcs : list string) (msg : string) (m1 : Maker) :
  Forall2 (fun f src => Cmd.ioutil_ReadFile f = ok src) pre srcs ->
  Cmd.ioutil_ReadFile f = failed msg ->
  Main.parseAll wd m
    (map (fun p => parse p.1 p.2) (zip (map Cmd.filepath_Base pre) srcs))
    = Return m1 None ->
  Cmd.parseFiles parse wd m (pre ++ f :: post) = Return m1 (Some msg).
Proof.
  intros Hread Hf. revert m.
  induction Hread as [|g src pre srcs Hg _ IH]; intros m.
  - intros [= ->]. cbn [app Cmd.parseFiles]. by rewrite Hf.
  - cbn [app Cmd.parseFiles map zip zip_with Main.parseAll fst snd]. rewrite Hg.
    destruct (ParseSource _ _ _) as [m2 [e|]|]; [done| |done]. apply IH.
Qed.

End Files.

(** The directory [pkg] of [Examples.disk]. *)
Lemma directory_listing_witness :
  Cmd.listDir (H0 := Examples.disk) "pkg" = ok ["pkg/a.go"; "pkg/b.go"] /\
  StronglySorted String.le ["pkg/a.go"; "pkg/b.go"].
Proof.
  split; [vm_compute; reflexivity|].
  refine (proj1 (directory_listing (H0 := Examples.disk) "pkg" _ ["pkg/a.go"; "pkg/b.go"] _ _));
    vm_compute; reflexivity.
Defined.

(** A file, the directory, and the file again. *)
Lemma arguments_in_order_witness :
  Cmd.expand (H0 := Examples.disk) [] ["main.txt"; "pkg"; "main.txt"]
    = ok ["main.txt"; "pkg/a.go"; "pkg/b.go"; "main.txt"] /\
  exists parts, ["main.txt"; "pkg/a.go"; "pkg/b.go"; "main.txt"] = concat parts /\
    length parts = 3.
Proof.
  split; [vm_compute; reflexivity|].
  edestruct (arguments_in_order (H0 := Examples.disk) ["main.txt"; "pkg"; "main.txt"])
    as (parts & H1 & H2); [vm_compute; reflexivity|].
  exists parts. split; [exact H1|]. symmetry. exact (Forall2_length _ _ _ H2).
Defined.

(** The command on the directory [pkg], without output location. *)
Lemma run_reads_then_parses_witness :
  exists text,
    Main.run (H := Unix.lib ok) Examples.parse (ok "/tmp")
      (Main.mkArgs "Foo" "FooIface" "bar" true "")
      [("a.go", "// pkg/a.go"); ("b.go", "// pkg/b.go")] = Main.Written text /\
    Cmd.run (H := Unix.lib ok) (H0 := Examples.disk) Examples.parse (ok "/tmp")
      (Main.mkArgs "Foo" "FooIface" "bar" true "") ["pkg"] = Cmd.Printed (text +:+ LF).
Proof.
  eexists. split; [vm_compute; reflexivity|].
  rewrite (run_reads_then_parses (H := Unix.lib ok) (H0 := Examples.disk) Examples.parse
             (ok "/tmp") (Main.mkArgs "Foo" "FooIface" "bar" true "") ["pkg"]
             ["pkg/a.go"; "pkg/b.go"] ["// pkg/a.go"; "// pkg/b.go"]).
  - vm_compute; reflexivity.
  - vm_compute; reflexivity.
  - repeat constructor.
Defined.

(** [gone.go] is not on [Examples.disk]. *)
Lemma unreadable_file_is_fatal_witness :
  exists m1,
    Cmd.parseFiles (H := Unix.lib ok) (H0 := Examples.disk) Examples.parse (ok "/tmp")
      Sample.foo ["pkg/a.go"; "gone.go"; "pkg/b.go"]
    = Return m1 (Some "open gone.go: no such file or directory").
Proof.
  eexists.
  apply (unreadable_file_is_fatal (H := Unix.lib ok) (H0 := Examples.disk) Examples.parse
           (ok "/tmp") Sample.foo ["pkg/a.go"] "gone.go" ["pkg/b.go"] ["// pkg/a.go"]).
  - repeat constructor.
  - vm_compute; reflexivity.
  - vm_compute; reflexivity.
Defined.

(** ** The order of the files *)

Section Order.

Context `{GoLib}.

Lemma names_flat_map_perm (g : File -> list FuncDecl) (files1 files2 : list File) :
  files1 ≡ₚ files2 -> names (flat_map g files1) = names (flat_map g files2).
Proof.
  induction 1 as [|f l1 l2 _ IH|f1 f2 l|l1 l2 l3 _ IH1 _ IH2].
  - done.
  - cbn [flat_map]. by rewrite !names_app, IH.
  - cbn [flat_map]. rewrite !names_app. set_solver.
  - congruence.
Qed.

Lemma firstWins_names_all seen l :
  seen ∪ names (firstWins seen l) = seen ∪ names l.
Proof.
  revert seen. induction l as [|fd l IH]; intros seen; [done|].
  cbn [firstWins]. destruct (decide _) as [Hin|Hnin].
  - rewrite names_cons, IH. set_solver.
  - rewrite !names_cons. specialize (IH ({[fdName fd]} ∪ seen)). set_solver.
Qed.

(** X19.  The order of the files decides which declaration of a name is
    rendered, not which names are: two runs from a new Maker that both go
    through without error, on the same files in two orders, end with the
    same method names and with as many methods. *)
Theorem method_names_order_independent (wd1 wd2 : result string) (target : string)
    (copyDocs : bool) (output pkg : string) (files1 files2 : list File)
    (m1 m2 : Maker) :
  files1 ≡ₚ files2 ->
  Main.parseAll wd1 (newMaker target copyDocs output pkg) (map ok files1) = Return m1 None ->
  Main.parseAll wd2 (newMaker target copyDocs output pkg) (map ok files2) = Return m2 None ->
  methodNames m1 = methodNames m2 /\
  length (methods m1) = length (methods m2).
Proof.
  intros Hperm Hrun1 Hrun2.
  apply (parseAll_settled _ _ _ []) in Hrun1 as ((Hn1 & Hr1 & _) & _); [|apply Settled_new].
  apply (parseAll_settled _ _ _ []) in Hrun2 as ((Hn2 & Hr2 & _) & _); [|apply Settled_new].
  cbn [app newMaker StructName] in *.
  assert (Hnames : methodNames m1 = methodNames m2).
  { rewrite Hn1, Hn2. by apply names_flat_map_perm. }
  split; [exact Hnames|].
  rewrite <- (Forall2_length _ _ _ Hr1), <- (Forall2_length _ _ _ Hr2).
  assert (Hsize : forall l, length (firstWins ∅ l) = size (names l)).
  { intros l. pose proof (firstWins_names_all ∅ l) as Hall.
    rewrite !(left_id_L ∅ (∪)) in Hall. rewrite <- Hall.
    destruct (firstWins_NoDup ∅ l) as [Hnd _].
    unfold names. rewrite size_list_to_set by done. by rewrite length_map. }
  rewrite !Hsize. rewrite <- Hn1, <- Hn2. by rewrite Hnames.
Qed.

End Order.

(** [Sample.fileA] and [Examples.fileD], which both declare [Get], in the
    two orders. *)
Lemma method_names_order_independent_witness :
  exists m1 m2,
    Main.parseAll (H := Unix.lib ok) (ok "/tmp") Sample.foo
      (map ok [Sample.fileA; Examples.fileD]) = Return m1 None /\
    Main.parseAll (H := Unix.lib ok) (ok "/tmp") Sample.foo
      (map ok [Examples.fileD; Sample.fileA]) = Return m2 None /\
    methodNames m1 = methodNames m2 /\
    map Code (methods m1) = ["Get() (w.Widget)"; "Put() (string)"] /\
    map Code (methods m2) = ["Get() (int)"; "Put() (string)"].
Proof.
  edestruct (method_names_order_independent (H := Unix.lib ok) (ok "/tmp") (ok "/tmp")
               "Foo" true "" "" [Sample.fileA; Examples.fileD]
               [Examples.fileD; Sample.fileA]) as (H1 & _);
    [apply perm_swap|vm_compute; reflexivity|vm_compute; reflexivity|].
  eexists. eexists. split; [vm_compute; reflexivity|].
  split; [vm_compute; reflexivity|]. split; [exact H1|].
  split; vm_compute; reflexivity.
Defined.
